(** * Three-body problem: the physics engine of [bodies.js]

    A shallow embedding of the classes [Position], [MotionVector], [Body]
    and [BodyCollection], followed by the properties of the simulation
    step, the trail buffer, the centre of mass and the validated setters.
    The script that the engine grew out of is embedded as well and related
    to it.

    Modelling conventions.
    - A JavaScript [number] that holds a coordinate, a mass or a momentum
      component is an IEEE-754 binary64 value: Rocq's primitive [float],
      whose operations round to nearest-even exactly as the engine does.
    - [trailLength] and [colorIndex] are numbers like the others: the
      setters store whatever number passes their comparisons, a fraction
      or NaN as well.  The length of an array is a [nat] and becomes a
      number ([number]) where the code compares or subtracts it; a number
      becomes an integer again where ECMAScript says so
      ([ToIntegerOrInfinity] in [splice], the array index of a property
      access).  The argument of [removeBody] is an integer, [Z].
    - An array is a [list]; [push] and [splice] follow ECMAScript.
    - A method that mutates [this] is a function from the object before the
      call to the object after it.  A method that can [throw] also yields a
      [completion]: the returned value, or the message of the [Error].
    - The [async] methods never wait for anything outside the engine, so
      one call of [updateSimulation], run until its promise resolves, is
      the sequential composition of its statements.
    - Every body of a collection owns its [Position] and [MotionVector]
      (as [addBodyCustom] builds them): no two bodies share one. *)

From Stdlib Require Import ZArith Lia String Floats.PrimFloat.
From Stdlib Require Import Bool Floats.
From Stdlib Require Uint63.
From stdpp Require Import base list.

Local Open Scope Z_scope.

(** ** The JavaScript run time the engine relies on *)

Module JS.

(** How a call ends: [return v] or [throw new Error(message)]. *)
Inductive completion (A : Type) : Type :=
| Return (v : A)
| Throw (message : string).
Arguments Return {A} v.
Arguments Throw {A} message.

(** [a.push(v)] *)
Definition push {A} (a : list A) (v : A) : list A := a ++ [v].

(** [a.splice(start, deleteCount)] for integer arguments: the removed
    elements and the array that is left.  A negative [start] counts from
    the end; both arguments are clamped to the array. *)
Definition splice {A} (a : list A) (start deleteCount : Z)
  : list A * list A :=
  let len := Z.of_nat (length a) in
  let actualStart :=
    if start <? 0 then Z.max (len + start) 0 else Z.min start len in
  let actualDeleteCount :=
    Z.min (Z.max deleteCount 0) (len - actualStart) in
  let s := Z.to_nat actualStart in
  let d := Z.to_nat actualDeleteCount in
  (take d (drop s a), take s a ++ drop (s + d) a).

(** [for (let i = 0; i < n; i++) body] over a state [S]. *)
Definition for_range {S} (n : nat) (body : nat -> S -> S) (s : S) : S :=
  fold_left (fun acc i => body i acc) (seq 0 n) s.

(** The number whose value is the integer [z]: exact for every [z] of
    magnitude below 2^53, as array lengths and the bounds of the guards
    are. *)
Definition ofZ (z : Z) : float :=
  if z <? 0 then (- of_uint63 (Uint63.of_Z (- z)))%float
  else of_uint63 (Uint63.of_Z z).

(** [a.length], as a number. *)
Definition number (n : nat) : float := ofZ (Z.of_nat n).

(** The result of ECMAScript's ToIntegerOrInfinity. *)
Inductive integerOrInfinity : Set :=
| NegInfinity
| Integer (z : Z)
| PosInfinity.

(** ToIntegerOrInfinity: NaN and the zeros give 0, a finite number is
    truncated towards zero. *)
Definition ToIntegerOrInfinity (f : float) : integerOrInfinity :=
  match Prim2SF f with
  | S754_nan | S754_zero _ => Integer 0
  | S754_infinity s => if s then NegInfinity else PosInfinity
  | S754_finite s m e =>
      let v := if 0 <=? e then Zpos m * 2 ^ e else Zpos m / 2 ^ (- e) in
      Integer (if s then - v else v)
  end.

(** [a.splice(start, deleteCount)] for an integer [start] and a number
    [deleteCount]: the count goes through ToIntegerOrInfinity, and an
    infinite count is clamped as any count beyond the array is. *)
Definition spliceCount {A} (a : list A) (start : Z) (deleteCount : float)
  : list A * list A :=
  match ToIntegerOrInfinity deleteCount with
  | NegInfinity => splice a start 0
  | Integer z => splice a start z
  | PosInfinity => splice a start (Z.of_nat (length a))
  end.

(** The array index that the number [f] is as a property key: the
    integer it equals (both zeros are the key "0"), none for a fraction,
    a negative number, an infinity or NaN. *)
Definition arrayIndex (f : float) : option nat :=
  match Prim2SF f with
  | S754_zero _ => Some 0%nat
  | S754_finite false m e =>
      if 0 <=? e then Some (Z.to_nat (Zpos m * 2 ^ e))
      else if Zpos m mod 2 ^ (- e) =? 0
           then Some (Z.to_nat (Zpos m / 2 ^ (- e)))
           else None
  | _ => None
  end.

(** [a[f]]: [None] is [undefined]. *)
Definition get {A} (a : list A) (f : float) : option A :=
  match arrayIndex f with
  | Some i => a !! i
  | None => None
  end.

End JS.
Export JS.

(** ** class MotionVector *)

Module MotionVector.
Local Open Scope float_scope.

Record t : Set := mk { x : float; y : float }.

Definition reset (this : t) : t := mk 0 0.

Definition addCoords (this : t) (dx dy : float) : t :=
  mk (x this + dx) (y this + dy).

End MotionVector.

(** ** class Position *)

Module Position.
Local Open Scope float_scope.

Record t : Set := mk { x : float; y : float }.

Definition addVector (this : t) (vector : MotionVector.t) : t :=
  mk (x this + MotionVector.x vector) (y this + MotionVector.y vector).

(** [a.difference(b)] is [b - a]. *)
Definition difference (this position : t) : t :=
  mk (x position - x this) (y position - y this).

Definition distance (this position : t) : float :=
  let p := difference this position in
  sqrt ((x p * x p) + (y p * y p)).

Definition exportCoordinates (this : t) : list float :=
  [x this; y this].

End Position.

(** ** class Body *)

Module Body.

Definition colorOptions : list string :=
  [ "#ffffff"; "#f44336"; "#E91E63"; "#9C27B0"; "#673AB7"; "#3F51B5";
    "#2196F3"; "#00BCD4"; "#009688"; "#4CAF50"; "#CDDC39"; "#FFEB3B";
    "#FFC107"; "#FF9800"; "#FF5722" ]%string.

Record t : Set := mk {
  mass : float;
  position : Position.t;
  momentum : MotionVector.t;
  trailLength : float;
  trail : list (list float);
  colorIndex : float;
  trailThickness : float
}.

Definition set_momentum (m : MotionVector.t) (this : t) : t :=
  mk (mass this) (position this) m (trailLength this) (trail this)
     (colorIndex this) (trailThickness this).
Definition set_position (p : Position.t) (this : t) : t :=
  mk (mass this) p (momentum this) (trailLength this) (trail this)
     (colorIndex this) (trailThickness this).
Definition set_trailLength (n : float) (this : t) : t :=
  mk (mass this) (position this) (momentum this) n (trail this)
     (colorIndex this) (trailThickness this).
Definition set_trail (tr : list (list float)) (this : t) : t :=
  mk (mass this) (position this) (momentum this) (trailLength this) tr
     (colorIndex this) (trailThickness this).
Definition set_colorIndex (i : float) (this : t) : t :=
  mk (mass this) (position this) (momentum this) (trailLength this)
     (trail this) i (trailThickness this).
Definition set_trailThickness (px : float) (this : t) : t :=
  mk (mass this) (position this) (momentum this) (trailLength this)
     (trail this) (colorIndex this) px.

(** [setRandomColor()].  [draw] is the value that
    [Math.floor(Math.random() * Body.colorOptions.length)] takes in this
    call: the random source is an input of the model. *)
Definition setRandomColor (draw : float) (this : t) : t :=
  set_colorIndex draw this.

(** [new Body(mass, position, momentum)] *)
Definition new (draw : float) (mass : float) (position : Position.t)
           (momentum : MotionVector.t) : t :=
  setRandomColor draw (mk mass position momentum 0 [] 0 2).

Definition x (this : t) : float := Position.x (position this).
Definition y (this : t) : float := Position.y (position this).
Definition radius (this : t) : float := (mass this * 10)%float.
Definition color (this : t) : option string :=
  get colorOptions (colorIndex this).

Definition setTrailLength (n : float) (this : t) : completion unit * t :=
  if (n <? 0)%float || (100000 <? n)%float
  then (Throw "Invalid trail length", this)
  else (Return tt, set_trailLength n this).

Definition gravCoeff (this body : t) : float :=
  let radius := Position.distance (position this) (position body) in
  ((mass this * mass body) / (radius * radius) * 0.5)%float.

Definition adjustVector (this body : t) : t :=
  let c := gravCoeff this body in
  let posDiff := Position.difference (position this) (position body) in
  set_momentum
    (MotionVector.addCoords (momentum this)
       (c * Position.x posDiff)%float (c * Position.y posDiff)%float)
    this.

Definition adjustPosition (this : t) : t :=
  let this :=
    if negb (trailLength this =? 0)%float
       && (number (length (trail this)) <=? trailLength this)%float
    then set_trail
           (push (trail this) (Position.exportCoordinates (position this)))
           this
    else this in
  let this :=
    if (trailLength this <? number (length (trail this)))%float
    then set_trail
           (snd (spliceCount (trail this) 0
                   (number (length (trail this)) - trailLength this)%float))
           this
    else this in
  set_position (Position.addVector (position this) (momentum this)) this.

Definition setColor (i : float) (this : t) : completion float * t :=
  if (i <? 0)%float || (number (length colorOptions) <=? i)%float
  then (Throw "Invalid color index", this)
  else (Return i, set_colorIndex i this).

Definition setTrailThickness (pixels : float) (this : t)
  : completion float * t :=
  if (pixels <=? 0)%float || (radius this <? pixels)%float
  then (Throw "Invalid trail thickness", this)
  else (Return pixels, set_trailThickness pixels this).

End Body.

(** ** class BodyCollection *)

Module BodyCollection.

Definition MAX_BODIES : Z := 10.

Record t : Set := mk { bodies : list Body.t }.

(** The loop of [centerOfMass]: [xComp], [yComp] and [mass]. *)
Definition comLoop (bs : list Body.t) : float * float * float :=
  for_range (length bs)
    (fun i '(xComp, yComp, mass) =>
       match bs !! i with
       | Some b =>
           ((xComp + Body.x b * Body.mass b)%float,
            (yComp + Body.y b * Body.mass b)%float,
            (mass + Body.mass b)%float)
       | None => (xComp, yComp, mass)
       end)
    (0%float, 0%float, 0%float).

Definition centerOfMass (this : t) : completion Position.t :=
  let '(xComp, yComp, mass) := comLoop (bodies this) in
  Return (Position.mk (xComp / mass) (yComp / mass)).

Definition addBodyCustom (draw : float) (mass posx posy momx momy : float)
           (this : t) : completion Body.t * t :=
  if Z.of_nat (length (bodies this)) >=? MAX_BODIES
  then (Throw "Body count limit reached.", this)
  else
    let p := Position.mk posx posy in
    let m := MotionVector.mk momx momy in
    let b := Body.new draw mass p m in
    (Return b, mk (push (bodies this) b)).

Definition addBody (draw : float) (posx posy : float) (this : t)
  : completion Body.t * t :=
  addBodyCustom draw 1 posx posy 0 0 this.

(** [this.bodies.splice(index, 1)[0]]: [None] is [undefined]. *)
Definition removeBody (index : Z) (this : t)
  : completion (option Body.t) * t :=
  let '(removed, rest) := splice (bodies this) index 1 in
  (Return (removed !! 0%nat), mk rest).

(** [this.bodies[i].adjustVector(this.bodies[j])] *)
Definition adjustVectorAt (i j : nat) (bs : list Body.t) : list Body.t :=
  match bs !! i, bs !! j with
  | Some bi, Some bj => <[i := Body.adjustVector bi bj]> bs
  | _, _ => bs
  end.

Definition updateVectors (this : t) : t :=
  mk (for_range (length (bodies this))
        (fun i bs =>
           for_range (length bs)
             (fun j bs =>
                if decide (i = j) then bs else adjustVectorAt i j bs)
             bs)
        (bodies this)).

(** [this.bodies[i].adjustPosition()] *)
Definition adjustPositionAt (i : nat) (bs : list Body.t) : list Body.t :=
  match bs !! i with
  | Some bi => <[i := Body.adjustPosition bi]> bs
  | None => bs
  end.

Definition updatePositions (this : t) : t :=
  mk (for_range (length (bodies this)) adjustPositionAt (bodies this)).

Definition updateSimulation (this : t) : t :=
  updatePositions (updateVectors this).

(** [n] calls of [updateSimulation], each one resolved before the next is
    made.  ([Animator.calculate] makes one call per frame at its default
    [speed = 1].) *)
Fixpoint runSimulation (n : nat) (this : t) : t :=
  match n with
  | O => this
  | S k => runSimulation k (updateSimulation this)
  end.

End BodyCollection.

(** ** The specification's wording, for comparison with the code *)

Module Spec.

(** [Σ] over a list of numbers, taken left to right from [0]. *)
Definition sum (l : list float) : float :=
  fold_left PrimFloat.add l 0%float.

(** [Σ(position_i * mass_i) / Σ(mass_i)], on each coordinate. *)
Definition weightedAverage (bs : list Body.t) : Position.t :=
  let total := sum (map Body.mass bs) in
  Position.mk
    (sum (map (fun b => Body.x b * Body.mass b)%float bs) / total)
    (sum (map (fun b => Body.y b * Body.mass b)%float bs) / total).

(** [advance()] as three steps in order, for a body whose capacity is the
    whole number [cap]: append the pre-advance position when
    [appends cap length] says so, trim from the head down to [cap]
    entries, add the momentum to the position. *)
Definition advanceWith (appends : Z -> Z -> bool) (cap : Z) (b : Body.t)
  : Body.t :=
  let pre := Body.position b in
  let appended :=
    if appends cap (Z.of_nat (length (Body.trail b)))
    then Body.trail b ++ [[Position.x pre; Position.y pre]]
    else Body.trail b in
  let trimmed :=
    if cap <? Z.of_nat (length appended)
    then drop (length appended - Z.to_nat cap) appended
    else appended in
  Body.mk (Body.mass b)
    (Position.mk
       (Position.x pre + MotionVector.x (Body.momentum b))
       (Position.y pre + MotionVector.y (Body.momentum b)))
    (Body.momentum b) (Body.trailLength b) trimmed (Body.colorIndex b)
    (Body.trailThickness b).

(** Appending only while the trail is strictly below its capacity. *)
Definition advanceStrictlyBelow : Z -> Body.t -> Body.t :=
  advanceWith (fun cap len => (0 <? cap) && (len <? cap)).

(** Appending while the trail is at most at its capacity. *)
Definition advanceUpTo : Z -> Body.t -> Body.t :=
  advanceWith (fun cap len => (0 <? cap) && (len <=? cap)).

(** The capacity of [b] is the whole number [k], one that [setTrailLength]
    accepts. *)
Definition wholeCapacity (b : Body.t) (k : Z) : Prop :=
  0 <= k <= 100000 /\ Body.trailLength b = ofZ k.

(** A JavaScript array holds fewer than 2^32 entries. *)
Definition anArray {A} (a : list A) : Prop :=
  Z.of_nat (length a) < 2 ^ 32.

(** What the simulation reads and writes of a body: everything but the
    colour index and the trail thickness. *)
Definition physics (b : Body.t)
  : float * Position.t * MotionVector.t * float * list (list float) :=
  (Body.mass b, Body.position b, Body.momentum b, Body.trailLength b,
   Body.trail b).

(** A body with its cosmetic attributes reset. *)
Definition plain (b : Body.t) : Body.t :=
  Body.set_trailThickness 2%float (Body.set_colorIndex 0 b).

(** [len(trail) ≤ trailCapacity], as numbers compare. *)
Definition trailBounded (b : Body.t) : Prop :=
  (number (length (Body.trail b)) <=? Body.trailLength b)%float = true.

(** [len(trail) ≤ trailCapacity] for a capacity that is a whole number. *)
Definition wholeBounded (b : Body.t) : Prop :=
  exists k, wholeCapacity b k /\ Z.of_nat (length (Body.trail b)) <= k.

End Spec.

(** ** Collections used as examples *)

Module Sample.
Local Open Scope float_scope.

(** A, of mass 1 at (0,0), and B, of mass 1 at (10,0): at rest, without a
    trail, of any colour and trail thickness. *)
Definition bodyA (colorIndex : float) (trailThickness : float) : Body.t :=
  Body.mk 1 (Position.mk 0 0) (MotionVector.mk 0 0) 0 [] colorIndex
    trailThickness.
Definition bodyB (colorIndex : float) (trailThickness : float) : Body.t :=
  Body.mk 1 (Position.mk 10 0) (MotionVector.mk 0 0) 0 [] colorIndex
    trailThickness.

(** A body at (1,1) moving by (1,0) whose trail of capacity 1 is full. *)
Definition fullTrail : Body.t :=
  Body.mk 1 (Position.mk 1 1) (MotionVector.mk 1 0) 1 [[0; 0]] 0 2.

(** A body at (3,0) whose trail of capacity 2 holds two positions. *)
Definition twoEntries : Body.t :=
  Body.mk 1 (Position.mk 3 0) (MotionVector.mk 1 0) 2 [[1; 0]; [2; 0]] 0 2.

(** Ten bodies on a line, as ten calls of [addBody] leave them. *)
Definition tenBodies : BodyCollection.t :=
  BodyCollection.mk
    (map (fun posx => Body.new 0 1 (Position.mk posx 0) (MotionVector.mk 0 0))
       [0; 1; 2; 3; 4; 5; 6; 7; 8; 9]).

(** Two bodies that record a trail of capacity 1, and the same two with
    other colours and trail thicknesses. *)
Definition trailing : BodyCollection.t :=
  BodyCollection.mk
    [ Body.mk 1 (Position.mk 0 0) (MotionVector.mk 0 0) 1 [] 0 2;
      Body.mk 1 (Position.mk 10 0) (MotionVector.mk 0 0) 1 [] 0 2 ].
Definition trailingRecoloured : BodyCollection.t :=
  BodyCollection.mk
    [ Body.mk 1 (Position.mk 0 0) (MotionVector.mk 0 0) 1 [] 7 1;
      Body.mk 1 (Position.mk 10 0) (MotionVector.mk 0 0) 1 [] 14 3 ].


End Sample.

(** ** The first engine: the script that [bodies.js] grew out of

    The script keeps its bodies in a global array [bodies], with their
    colours in a second array [colors].  Its classes [Position] and
    [MotionVector] are those above without [async]; its [Body] has a mass,
    a position and a momentum, and no trail. *)

Module Legacy.

Record Body : Set := mkBody {
  mass : float;
  position : Position.t;
  momentum : MotionVector.t
}.

Definition gravCoeff (this body : Body) : float :=
  let radius := Position.distance (position this) (position body) in
  ((mass this * mass body) / (radius * radius) * 0.5)%float.

Definition adjustVector (this body : Body) : Body :=
  let c := gravCoeff this body in
  let posDiff := Position.difference (position this) (position body) in
  mkBody (mass this) (position this)
    (MotionVector.addCoords (momentum this)
       (c * Position.x posDiff)%float (c * Position.y posDiff)%float).

Definition adjustPosition (this : Body) : Body :=
  mkBody (mass this) (Position.addVector (position this) (momentum this))
    (momentum this).

(** The globals [bodies] and [colors]. *)
Record globals : Set := mkGlobals {
  bodies : list Body;
  colors : list string
}.

Definition addBody (color : string) (mass posx posy momx momy : float)
           (g : globals) : globals :=
  let p := Position.mk posx posy in
  let m := MotionVector.mk momx momy in
  mkGlobals (push (bodies g) (mkBody mass p m)) (push (colors g) color).

Definition adjustVectorAt (i j : nat) (bs : list Body) : list Body :=
  match bs !! i, bs !! j with
  | Some bi, Some bj => <[i := adjustVector bi bj]> bs
  | _, _ => bs
  end.

Definition adjustPositionAt (i : nat) (bs : list Body) : list Body :=
  match bs !! i with
  | Some bi => <[i := adjustPosition bi]> bs
  | None => bs
  end.

Definition updateValues (g : globals) : globals :=
  let bs :=
    for_range (length (bodies g))
      (fun i bs =>
         for_range (length bs)
           (fun j bs =>
              if decide (i = j) then bs else adjustVectorAt i j bs)
           bs)
      (bodies g) in
  let bs := for_range (length bs) adjustPositionAt bs in
  mkGlobals bs (colors g).

Definition loopUpdate (n : nat) (g : globals) : globals :=
  for_range n (fun _ g => updateValues g) g.

(** What the first engine knows of a body of [bodies.js]. *)
Definition ofBody (b : Body.t) : Body :=
  mkBody (Body.mass b) (Body.position b) (Body.momentum b).

End Legacy.

(** ** Sequences of calls on a collection *)

Module Driver.

(** [collection.bodies[i].method(...)]: when there is no body of index
    [i] the call throws and the collection stays as it is. *)
Definition onBody (i : nat) (method : Body.t -> Body.t)
           (c : BodyCollection.t) : BodyCollection.t :=
  match BodyCollection.bodies c !! i with
  | Some b => BodyCollection.mk (<[i := method b]> (BodyCollection.bodies c))
  | None => c
  end.

(** The calls that change a [BodyCollection] or one of its bodies. *)
Inductive call : Set :=
| AddBody (draw : float) (posx posy : float)
| AddBodyCustom (draw : float) (mass posx posy momx momy : float)
| RemoveBody (index : Z)
| UpdateSimulation
| SetTrailLength (i : nat) (n : float)
| SetColor (i : nat) (k : float)
| SetTrailThickness (i : nat) (pixels : float).

(** The collection after one call; a call that throws is caught by the
    caller, who goes on with the collection as the call left it. *)
Definition perform (k : call) (c : BodyCollection.t) : BodyCollection.t :=
  match k with
  | AddBody draw posx posy => snd (BodyCollection.addBody draw posx posy c)
  | AddBodyCustom draw mass posx posy momx momy =>
      snd (BodyCollection.addBodyCustom draw mass posx posy momx momy c)
  | RemoveBody index => snd (BodyCollection.removeBody index c)
  | UpdateSimulation => BodyCollection.updateSimulation c
  | SetTrailLength i n => onBody i (fun b => snd (Body.setTrailLength n b)) c
  | SetColor i k => onBody i (fun b => snd (Body.setColor k b)) c
  | SetTrailThickness i pixels =>
      onBody i (fun b => snd (Body.setTrailThickness pixels b)) c
  end.

Definition performAll (ks : list call) (c : BodyCollection.t)
  : BodyCollection.t :=
  fold_left (fun c k => perform k c) ks c.

(** The colour indices of the call are whole numbers: the one that a
    constructor draws is one of the colour options, as
    [Math.floor(Math.random() * 15)] is, and the one given to [setColor]
    is any integer. *)
Definition wholeIndices (k : call) : Prop :=
  match k with
  | AddBody draw _ _ | AddBodyCustom draw _ _ _ _ _ =>
      exists j, 0 <= j < Z.of_nat (length Body.colorOptions) /\ draw = ofZ j
  | SetColor _ i => exists j, - 2 ^ 53 < j < 2 ^ 53 /\ i = ofZ j
  | _ => True
  end.

(** A body within the bounds of the engine: a capacity that
    [setTrailLength] does not refuse (NaN is one), a trail of at most
    100000 entries, and trail entries that are pairs of coordinates. *)
Definition bodyWithinBounds (b : Body.t) : Prop :=
  (Body.trailLength b <? 0)%float = false /\
  (100000 <? Body.trailLength b)%float = false /\
  Z.of_nat (length (Body.trail b)) <= 100000 /\
  Forall (fun entry => length entry = 2%nat) (Body.trail b).

Definition withinBounds (c : BodyCollection.t) : Prop :=
  Z.of_nat (length (BodyCollection.bodies c)) <= BodyCollection.MAX_BODIES /\
  Forall bodyWithinBounds (BodyCollection.bodies c).

(** The colour getter of the body returns one of the colour options. *)
Definition hasColor (b : Body.t) : Prop :=
  exists css, Body.color b = Some css /\ css ∈ Body.colorOptions.

End Driver.

(** ** What a step computes, body by body *)

Module Phase.

(** What a body shows to the bodies it pulls on. *)
Definition place (b : Body.t) : Position.t * float :=
  (Body.position b, Body.mass b).

(** The body [b] of index [i] after every other body of [bs], in the order
    of the array, has pulled on it. *)
Definition attracted (bs : list Body.t) (i : nat) (b : Body.t) : Body.t :=
  fold_left Body.adjustVector (delete i bs) b.

(** The body of index [i] after [k] simulation steps. *)
Definition bodyAt (c : BodyCollection.t) (i k : nat) : option Body.t :=
  BodyCollection.bodies (BodyCollection.runSimulation k c) !! i.

(** The positions that the body of index [i] leaves in the first [n]
    steps, oldest first, as [exportCoordinates] gives them. *)
Fixpoint positionsLeft (c : BodyCollection.t) (i n : nat)
  : list (list float) :=
  match n with
  | O => []
  | S k =>
      positionsLeft c i k
      ++ match bodyAt c i k with
         | Some b => [Position.exportCoordinates (Body.position b)]
         | None => []
         end
  end.

(** The [n] most recent entries of a list that grows at its end. *)
Definition mostRecent {A} (n : nat) (l : list A) : list A :=
  drop (length l - n) l.

(** What the simulation never changes in a body. *)
Definition fixedPart (b : Body.t) : float * float * float * float :=
  (Body.mass b, Body.trailLength b, Body.colorIndex b, Body.trailThickness b).

End Phase.

(** ** Classes of binary64 values met at distance zero *)

Module Binary64.

(** [+0] or NaN: what [u - u] can be. *)
Definition zeroOrNaN (z : spec_float) : Prop :=
  z = S754_zero false \/ z = S754_nan.

(** An infinity or NaN: what a quotient by [+0] or NaN can be. *)
Definition infOrNaN (z : spec_float) : Prop :=
  z = S754_nan \/ exists s, z = S754_infinity s.

(** [c * 2^n] on positive numbers. *)
Definition shl (c : positive) (n : nat) : positive := Nat.iter n xO c.

(** The binary64 number of a positive integer below 2^53: its mantissa
    moved up to 53 digits. *)
Definition norm53 (c : positive) : spec_float :=
  S754_finite false (shl c (Z.to_nat (53 - Zpos (digits2_pos c))))
    (Zpos (digits2_pos c) - 53).

(** The binary64 number of an integer in [0, 2^53). *)
Definition normZ (z : Z) : spec_float :=
  match z with
  | Zpos p => norm53 p
  | _ => S754_zero false
  end.

End Binary64.

Import BodyCollection.

(** ** Loops *)

Section ForRange.
Context {S : Type}.

Lemma for_range_invariant (P : S -> Prop) (body : nat -> S -> S) n s :
  (forall i s, P s -> P (body i s)) -> P s -> P (for_range n body s).
Proof.
  intros Hstep. unfold for_range. generalize (seq 0 n) as l.
  intros l. revert s. induction l as [|i l IH]; simpl; auto.
Qed.

Lemma for_range_commute {T : Type} (h : S -> T) (body : nat -> S -> S)
      (body' : nat -> T -> T) n s :
  (forall i s, body' i (h s) = h (body i s)) ->
  for_range n body' (h s) = h (for_range n body s).
Proof.
  intros Hstep. unfold for_range. generalize (seq 0 n) as l.
  intros l. revert s. induction l as [|i l IH]; simpl; intros s; auto.
  rewrite Hstep. apply IH.
Qed.

Lemma for_range_ext (body body' : nat -> S -> S) n s :
  (forall i s, body i s = body' i s) ->
  for_range n body s = for_range n body' s.
Proof.
  intros Hext. unfold for_range. generalize (seq 0 n) as l.
  intros l. revert s. induction l as [|i l IH]; simpl; intros s; auto.
  rewrite Hext. apply IH.
Qed.

End ForRange.

(** ** Arrays *)

Lemma splice_head {A} (a : list A) (k : Z) :
  splice a 0 k
  = (take (Z.to_nat k) a, drop (Z.to_nat k) a).
Proof.
  unfold splice. cbv zeta. change (0 <? 0) with false. cbv iota.
  rewrite (Z.min_l 0) by lia. change (Z.to_nat 0) with 0%nat.
  rewrite Z.sub_0_r, drop_0, take_0. cbn [app Nat.add].
  destruct (Z_le_gt_dec k (Z.of_nat (length a))) as [Hle|Hgt].
  - destruct (Z_le_gt_dec 0 k).
    + rewrite Z.max_l, Z.min_l by lia. reflexivity.
    + rewrite Z.max_r, Z.min_l by lia.
      replace (Z.to_nat k) with 0%nat by lia. reflexivity.
  - rewrite Z.max_l, Z.min_r by lia. rewrite Nat2Z.id.
    rewrite !take_ge, !drop_ge by lia. reflexivity.
Qed.

(** ** Whole numbers in binary64

    An integer of [0, 2^53) is a binary64 number, and comparing,
    subtracting and truncating such numbers is comparing, subtracting and
    keeping the integers. *)

Lemma shl_S c n : Binary64.shl c (S n) = xO (Binary64.shl c n).
Proof. reflexivity. Qed.

Lemma iter_xO_shl c p : Pos.iter xO c p = Binary64.shl c (Pos.to_nat p).
Proof. unfold Binary64.shl. rewrite Pos2Nat.inj_iter. reflexivity. Qed.

Lemma shl_add c n m : Binary64.shl (Binary64.shl c n) m = Binary64.shl c (n + m).
Proof.
  unfold Binary64.shl. rewrite Nat.add_comm. symmetry. apply Nat.iter_add.
Qed.

Lemma shl_digits c n :
  Zpos (digits2_pos (Binary64.shl c n)) = Zpos (digits2_pos c) + Z.of_nat n.
Proof.
  induction n as [|n IH]; [unfold Binary64.shl; simpl; lia|].
  rewrite shl_S. cbn [digits2_pos]. rewrite Pos2Z.inj_succ, IH. lia.
Qed.

Lemma shl_Z c n : Zpos (Binary64.shl c n) = Zpos c * 2 ^ Z.of_nat n.
Proof.
  induction n as [|n IH]; [unfold Binary64.shl; simpl; lia|].
  rewrite shl_S, Pos2Z.inj_xO, IH, Nat2Z.inj_succ, Z.pow_succ_r by lia. lia.
Qed.

Lemma iter_pos_nat {A} (f : A -> A) p : forall x,
  SpecFloat.iter_pos f p x = Nat.iter (Pos.to_nat p) f x.
Proof.
  induction p as [p IH|p IH|]; intros x; cbn [SpecFloat.iter_pos].
  - rewrite !IH, Pos2Nat.inj_xI.
    replace (S (2 * Pos.to_nat p))%nat
      with (Pos.to_nat p + (Pos.to_nat p + 1))%nat by lia.
    rewrite !Nat.iter_add. reflexivity.
  - rewrite !IH, Pos2Nat.inj_xO.
    replace (2 * Pos.to_nat p)%nat with (Pos.to_nat p + Pos.to_nat p)%nat
      by lia.
    rewrite Nat.iter_add. reflexivity.
  - reflexivity.
Qed.

Lemma shr_1_shl c n t :
  Nat.iter t shr_1
    {| shr_m := Zpos (Binary64.shl c (n + t)); shr_r := false; shr_s := false |}
  = {| shr_m := Zpos (Binary64.shl c n); shr_r := false; shr_s := false |}.
Proof.
  induction t as [|t IH].
  - rewrite Nat.add_0_r. reflexivity.
  - rewrite Nat.iter_succ_r. replace (n + S t)%nat with (S (n + t)) by lia.
    rewrite shl_S. cbn [shr_1 orb]. exact IH.
Qed.

Lemma digits2_size p : digits2_pos p = Pos.size p.
Proof. induction p; simpl; congruence. Qed.

Lemma digits_bounds p :
  2 ^ (Zpos (digits2_pos p) - 1) <= Zpos p < 2 ^ Zpos (digits2_pos p).
Proof.
  rewrite digits2_size. pose proof (Pos.size_gt p) as Hgt.
  pose proof (Pos.size_le p) as Hle.
  assert (Hgt' : Zpos p < 2 ^ Zpos (Pos.size p)).
  { change 2 with (Zpos 2). rewrite <- Pos2Z.inj_pow. exact Hgt. }
  assert (Hle' : 2 ^ Zpos (Pos.size p) <= 2 * Zpos p).
  { change 2 with (Zpos 2) at 1. rewrite <- Pos2Z.inj_pow. exact Hle. }
  split; [|exact Hgt'].
  assert (H2 : 2 ^ Zpos (Pos.size p) = 2 * 2 ^ (Zpos (Pos.size p) - 1)).
  { rewrite <- Z.pow_succ_r by lia. f_equal. lia. }
  lia.
Qed.

Lemma binary_round_aux_norm53 c :
  Zpos (digits2_pos c) <= 53 ->
  binary_round_aux prec emax false
    (Zpos (Binary64.shl c (Z.to_nat (53 - Zpos (digits2_pos c)))))
    (Zpos (digits2_pos c) - 53) loc_Exact
  = Binary64.norm53 c.
Proof.
  intros Hd. unfold binary_round_aux, shr_fexp.
  set (d := Zpos (digits2_pos c)) in *.
  set (M := Binary64.shl c (Z.to_nat (53 - d))).
  assert (HM : Zdigits2 (Zpos M) = 53).
  { unfold M. cbn [Zdigits2]. rewrite shl_digits. fold d. lia. }
  assert (Hd0 : 0 < d) by (unfold d; lia).
  assert (Hf : fexp prec emax (53 + (d - 53)) - (d - 53) = 0).
  { unfold fexp, SpecFloat.emin, prec, emax. lia. }
  rewrite HM, Hf. cbn [shr_record_of_loc shr shr_m loc_of_shr_record
                        round_nearest_even].
  rewrite HM, Hf. cbn [shr_record_of_loc shr shr_m].
  destruct (Z.leb_spec (d - 53) (emax - prec)) as [_|H];
    [reflexivity | unfold emax, prec in H; lia].
Qed.

Lemma binary_round_exact c (k : nat) :
  Zpos (digits2_pos c) <= 53 -> (k <= 53)%nat ->
  binary_round prec emax false (Binary64.shl c k) (- Z.of_nat k) = Binary64.norm53 c.
Proof.
  intros Hd Hk. unfold binary_round.
  set (d := Zpos (digits2_pos c)) in *.
  assert (Hd0 : 0 < d) by (unfold d; lia).
  rewrite shl_digits. fold d.
  replace (d + Z.of_nat k + - Z.of_nat k) with d by lia.
  assert (Hf : fexp prec emax d = d - 53).
  { unfold fexp, SpecFloat.emin, prec, emax. lia. }
  rewrite Hf. unfold shl_align.
  destruct (d - 53 - - Z.of_nat k) as [|t|t] eqn:Ht.
  - replace k with (Z.to_nat (53 - d)) by lia.
    replace (- Z.of_nat (Z.to_nat (53 - d))) with (d - 53) by lia.
    apply binary_round_aux_norm53. exact Hd.
  - (* more digits than needed: the low bits are zeros *)
    unfold binary_round_aux, shr_fexp.
    cbn [Zdigits2]. rewrite shl_digits. fold d.
    replace (d + Z.of_nat k + - Z.of_nat k) with d by lia.
    rewrite Hf, Ht. cbn [shr_record_of_loc shr].
    rewrite iter_pos_nat.
    set (M := Binary64.shl c (Z.to_nat (53 - d))).
    assert (Hiter : Nat.iter (Pos.to_nat t) shr_1
                      {| shr_m := Zpos (Binary64.shl c k);
                         shr_r := false; shr_s := false |}
                    = {| shr_m := Zpos M; shr_r := false; shr_s := false |}).
    { replace k with (Z.to_nat (53 - d) + Pos.to_nat t)%nat by lia.
      apply shr_1_shl. }
    rewrite Hiter.
    cbn [shr_m loc_of_shr_record round_nearest_even].
    assert (HM : Zdigits2 (Zpos M) = 53).
    { unfold M. cbn [Zdigits2]. rewrite shl_digits. fold d. lia. }
    rewrite HM.
    replace (- Z.of_nat k + Zpos t) with (d - 53) by lia.
    assert (Hf' : fexp prec emax (53 + (d - 53)) - (d - 53) = 0).
    { unfold fexp, SpecFloat.emin, prec, emax. lia. }
    rewrite Hf'. cbn [shr_record_of_loc shr shr_m].
    destruct (Z.leb_spec (d - 53) (emax - prec)) as [_|H];
      [reflexivity | unfold emax, prec in H; lia].
  - rewrite iter_xO_shl, shl_add.
    replace (k + Pos.to_nat t)%nat with (Z.to_nat (53 - d)) by lia.
    apply binary_round_aux_norm53. exact Hd.
Qed.

Lemma digits_le_53 p : Zpos p < 2 ^ 53 -> Zpos (digits2_pos p) <= 53.
Proof.
  intros Hp. pose proof (digits_bounds p) as [Hlo _].
  assert (H : 2 ^ (Zpos (digits2_pos p) - 1) < 2 ^ 53) by lia.
  apply Z.pow_lt_mono_r_iff in H; lia.
Qed.

Lemma digits_mono p q :
  Zpos q <= Zpos p -> Zpos (digits2_pos q) <= Zpos (digits2_pos p).
Proof.
  intros Hqp. pose proof (digits_bounds p) as [_ Hp].
  pose proof (digits_bounds q) as [Hq _].
  assert (H : 2 ^ (Zpos (digits2_pos q) - 1) < 2 ^ Zpos (digits2_pos p))
    by lia.
  apply Z.pow_lt_mono_r_iff in H; lia.
Qed.

Lemma binary_normalize_normZ z :
  0 <= z < 2 ^ 53 -> binary_normalize prec emax z 0 false = Binary64.normZ z.
Proof.
  intros Hz. destruct z as [|p|p]; [reflexivity | | lia].
  cbn [binary_normalize Binary64.normZ].
  apply (binary_round_exact p 0); [apply digits_le_53; lia | lia].
Qed.

Lemma compare_shl p q n :
  Pos.compare_cont Eq (Binary64.shl p n) (Binary64.shl q n) = Pos.compare p q.
Proof. induction n as [|n IH]; [reflexivity|]. rewrite !shl_S. exact IH. Qed.

Lemma SFcompare_normZ a b :
  0 <= a < 2 ^ 53 -> 0 <= b < 2 ^ 53 ->
  SFcompare (Binary64.normZ a) (Binary64.normZ b) = Some (a ?= b).
Proof.
  intros Ha Hb.
  destruct a as [|p|p], b as [|q|q]; try lia; try reflexivity.
  cbn [Binary64.normZ Binary64.norm53 SFcompare].
  pose proof (digits_bounds p) as [Hp1 Hp2].
  pose proof (digits_bounds q) as [Hq1 Hq2].
  destruct (Z.compare_spec (Zpos (digits2_pos p) - 53)
              (Zpos (digits2_pos q) - 53)) as [He|He|He].
  - replace (digits2_pos q) with (digits2_pos p) by lia.
    rewrite compare_shl. reflexivity.
  - f_equal. symmetry. apply Z.compare_lt_iff.
    assert (H : 2 ^ Zpos (digits2_pos p) <= 2 ^ (Zpos (digits2_pos q) - 1))
      by (apply Z.pow_le_mono_r; lia).
    lia.
  - f_equal. symmetry. apply Z.compare_gt_iff.
    assert (H : 2 ^ Zpos (digits2_pos q) <= 2 ^ (Zpos (digits2_pos p) - 1))
      by (apply Z.pow_le_mono_r; lia).
    lia.
Qed.

Lemma SFsub_normZ a b :
  0 <= b <= a -> a < 2 ^ 53 ->
  SFsub prec emax (Binary64.normZ a) (Binary64.normZ b) = Binary64.normZ (a - b).
Proof.
  intros Hb Ha.
  destruct a as [|p|p], b as [|q|q]; try lia; try reflexivity.
  cbn [Binary64.normZ Binary64.norm53 SFsub cond_Zopp].
  pose proof (digits_mono p q ltac:(lia)) as Hd.
  pose proof (digits_le_53 p ltac:(lia)) as Hdp.
  set (dp := Zpos (digits2_pos p)) in *.
  set (dq := Zpos (digits2_pos q)) in *.
  assert (Hdq0 : 0 < dq) by (unfold dq; lia).
  rewrite (Z.min_r (dp - 53) (dq - 53)) by lia.
  set (K := Z.to_nat (53 - dq)).
  assert (Hp : fst (shl_align (Binary64.shl p (Z.to_nat (53 - dp))) (dp - 53) (dq - 53))
               = Binary64.shl p K).
  { unfold shl_align. destruct (dq - 53 - (dp - 53)) as [|t|t] eqn:Ht.
    - cbn [fst]. f_equal. unfold K. lia.
    - lia.
    - cbn [fst]. rewrite iter_xO_shl, shl_add. f_equal. unfold K. lia. }
  assert (Hq : fst (shl_align (Binary64.shl q K) (dq - 53) (dq - 53)) = Binary64.shl q K).
  { unfold shl_align. rewrite Z.sub_diag. reflexivity. }
  rewrite Hp, Hq, !shl_Z.
  rewrite <- Z.mul_sub_distr_r.
  destruct (Zpos p - Zpos q) as [|c|c] eqn:Hc; try lia.
  - reflexivity.
  - rewrite <- shl_Z. cbn [binary_normalize Binary64.normZ].
    replace (dq - 53) with (- Z.of_nat K) by (unfold K; lia).
    apply binary_round_exact; [apply digits_le_53; lia | unfold K; lia].
Qed.


Lemma to_Z_of_Z z : 0 <= z < 2 ^ 53 -> Uint63.to_Z (Uint63.of_Z z) = z.
Proof.
  intros Hz. rewrite Uint63.of_Z_spec. apply Z.mod_small.
  assert (2 ^ 53 < Uint63.wB) by reflexivity. lia.
Qed.

Lemma ofZ_spec z : 0 <= z < 2 ^ 53 -> Prim2SF (ofZ z) = Binary64.normZ z.
Proof.
  intros Hz. unfold ofZ. destruct (Z.ltb_spec z 0); [lia|].
  rewrite of_uint63_spec, to_Z_of_Z by exact Hz.
  apply binary_normalize_normZ, Hz.
Qed.

Lemma ofZ_opp_spec z :
  0 < z < 2 ^ 53 -> Prim2SF (ofZ (- z)) = SFopp (Binary64.normZ z).
Proof.
  intros Hz. unfold ofZ. destruct (Z.ltb_spec (- z) 0); [|lia].
  rewrite opp_spec, of_uint63_spec, Z.opp_involutive, to_Z_of_Z by lia.
  rewrite binary_normalize_normZ by lia. reflexivity.
Qed.

Lemma ofZ_compare a b :
  0 <= a < 2 ^ 53 -> 0 <= b < 2 ^ 53 ->
  SFcompare (Prim2SF (ofZ a)) (Prim2SF (ofZ b)) = Some (a ?= b).
Proof. intros Ha Hb. rewrite !ofZ_spec by assumption. apply SFcompare_normZ; assumption. Qed.

Lemma ofZ_ltb a b :
  0 <= a < 2 ^ 53 -> 0 <= b < 2 ^ 53 -> (ofZ a <? ofZ b)%float = (a <? b).
Proof.
  intros Ha Hb. rewrite ltb_spec. unfold SFltb, Z.ltb.
  rewrite ofZ_compare by assumption. reflexivity.
Qed.

Lemma ofZ_leb a b :
  0 <= a < 2 ^ 53 -> 0 <= b < 2 ^ 53 -> (ofZ a <=? ofZ b)%float = (a <=? b).
Proof.
  intros Ha Hb. rewrite leb_spec. unfold SFleb, Z.leb.
  rewrite ofZ_compare by assumption. destruct (a ?= b); reflexivity.
Qed.

Lemma ofZ_eqb a b :
  0 <= a < 2 ^ 53 -> 0 <= b < 2 ^ 53 -> (ofZ a =? ofZ b)%float = (a =? b).
Proof.
  intros Ha Hb. rewrite FloatAxioms.eqb_spec. unfold SFeqb.
  rewrite ofZ_compare by assumption.
  destruct (Z.eqb_spec a b), (Z.compare_spec a b); try reflexivity; lia.
Qed.

Lemma ofZ_sub a b :
  0 <= b <= a -> a < 2 ^ 53 -> (ofZ a - ofZ b)%float = ofZ (a - b).
Proof.
  intros Hb Ha. apply Prim2SF_inj.
  rewrite sub_spec, !ofZ_spec by lia. apply SFsub_normZ; assumption.
Qed.

Lemma ToIntegerOrInfinity_ofZ a :
  0 <= a < 2 ^ 53 -> ToIntegerOrInfinity (ofZ a) = Integer a.
Proof.
  intros Ha. unfold ToIntegerOrInfinity. rewrite ofZ_spec by exact Ha.
  destruct a as [|p|p]; [reflexivity | | lia].
  cbn [Binary64.normZ Binary64.norm53]. f_equal.
  pose proof (digits_le_53 p ltac:(lia)) as Hd.
  set (d := Zpos (digits2_pos p)) in *.
  assert (Hd0 : 0 < d) by (unfold d; lia).
  rewrite shl_Z.
  destruct (Z.leb_spec 0 (d - 53)).
  - replace (d - 53) with 0 by lia.
    replace (Z.of_nat (Z.to_nat (53 - d))) with 0 by lia. simpl. lia.
  - replace (- (d - 53)) with (Z.of_nat (Z.to_nat (53 - d))) by lia.
    apply Z.div_mul. apply Z.pow_nonzero; lia.
Qed.

Lemma ofZ_negative_ltb a b :
  0 < a < 2 ^ 53 -> 0 <= b < 2 ^ 53 ->
  (ofZ (- a) <? ofZ b)%float = true /\ (ofZ b <? ofZ (- a))%float = false.
Proof.
  intros Ha Hb. rewrite !ltb_spec, ofZ_opp_spec, ofZ_spec by lia.
  destruct a as [|p|p]; try lia. destruct b as [|q|q]; try lia; split;
    reflexivity.
Qed.

Lemma ofZ_compare_signed a b :
  - 2 ^ 53 < a < 2 ^ 53 -> 0 <= b < 2 ^ 53 ->
  SFcompare (Prim2SF (ofZ a)) (Prim2SF (ofZ b)) = Some (a ?= b) /\
  SFcompare (Prim2SF (ofZ b)) (Prim2SF (ofZ a)) = Some (b ?= a).
Proof.
  intros Ha Hb. destruct (Z_lt_le_dec a 0) as [Hneg|Hpos].
  - replace a with (- - a) by lia.
    rewrite ofZ_opp_spec, ofZ_spec by lia.
    destruct a as [|p|p]; try lia. cbn [Z.opp].
    destruct b as [|q|q]; try lia; split; reflexivity.
  - split; apply ofZ_compare; lia.
Qed.

Lemma ofZ_ltb_signed a b :
  - 2 ^ 53 < a < 2 ^ 53 -> 0 <= b < 2 ^ 53 ->
  (ofZ a <? ofZ b)%float = (a <? b) /\ (ofZ b <? ofZ a)%float = (b <? a).
Proof.
  intros Ha Hb. destruct (ofZ_compare_signed a b Ha Hb) as [H1 H2].
  rewrite !ltb_spec. unfold SFltb, Z.ltb. rewrite H1, H2. split; reflexivity.
Qed.

Lemma ofZ_leb_signed a b :
  - 2 ^ 53 < a < 2 ^ 53 -> 0 <= b < 2 ^ 53 ->
  (ofZ a <=? ofZ b)%float = (a <=? b) /\ (ofZ b <=? ofZ a)%float = (b <=? a).
Proof.
  intros Ha Hb. destruct (ofZ_compare_signed a b Ha Hb) as [H1 H2].
  rewrite !leb_spec. unfold SFleb, Z.leb. rewrite H1, H2.
  split; [destruct (a ?= b) | destruct (b ?= a)]; reflexivity.
Qed.

Lemma arrayIndex_ofZ a :
  0 <= a < 2 ^ 53 -> arrayIndex (ofZ a) = Some (Z.to_nat a).
Proof.
  intros Ha. unfold arrayIndex. rewrite ofZ_spec by exact Ha.
  destruct a as [|p|p]; [reflexivity | | lia].
  cbn [Binary64.normZ Binary64.norm53].
  pose proof (digits_le_53 p ltac:(lia)) as Hd.
  set (d := Zpos (digits2_pos p)) in *.
  assert (Hd0 : 0 < d) by (unfold d; lia).
  rewrite shl_Z.
  destruct (Z.leb_spec 0 (d - 53)).
  - replace (d - 53) with 0 by lia.
    replace (Z.of_nat (Z.to_nat (53 - d))) with 0 by lia.
    f_equal. simpl. lia.
  - replace (- (d - 53)) with (Z.of_nat (Z.to_nat (53 - d))) by lia.
    rewrite Z.mod_mul by (apply Z.pow_nonzero; lia).
    rewrite Z.div_mul by (apply Z.pow_nonzero; lia). reflexivity.
Qed.

Lemma SFcompare_Eq_finite m e y :
  SFcompare (S754_finite false m e) y = Some Eq -> y = S754_finite false m e.
Proof.
  destruct y as [s|s| |s m' e']; cbn [SFcompare].
  - destruct s; discriminate.
  - destruct s; discriminate.
  - discriminate.
  - destruct s; [discriminate|].
    destruct (Z.compare_spec e e') as [He| |]; try discriminate.
    intros H. injection H as H. apply Pos.compare_eq in H. congruence.
Qed.

Lemma float_leb_antisym_whole a (u : float) :
  0 < a < 2 ^ 53 ->
  (ofZ a <=? u)%float = true -> (ofZ a <? u)%float = false -> u = ofZ a.
Proof.
  intros Ha. rewrite leb_spec, ltb_spec. unfold SFleb, SFltb.
  intros Hle Hlt. apply Prim2SF_inj.
  assert (Hc : SFcompare (Prim2SF (ofZ a)) (Prim2SF u) = Some Eq).
  { destruct (SFcompare (Prim2SF (ofZ a)) (Prim2SF u)) as [[]|];
      try discriminate; reflexivity. }
  rewrite ofZ_spec in * by lia. destruct a as [|p|p]; try lia.
  cbn [Binary64.normZ Binary64.norm53] in *.
  apply SFcompare_Eq_finite, Hc.
Qed.

Ltac safe_int :=
  unfold Spec.anArray in *; rewrite ?length_app in *; cbn [length] in *;
  assert (2 ^ 32 < 2 ^ 53) by reflexivity;
  assert (2 ^ 32 = 4294967296) by reflexivity; lia.

(** ** Body.adjustPosition *)

Ltac body_simpl :=
  unfold Body.set_trail, Body.set_position, Body.set_momentum,
    Body.set_trailLength, Body.set_colorIndex, Body.set_trailThickness,
    Position.addVector, Position.exportCoordinates, push in *;
  cbn [Body.trailLength Body.trail Body.position Body.momentum Body.mass
       Body.colorIndex Body.trailThickness] in *.

(** Whatever the capacity, [adjustPosition] writes the trail and the
    position only, and the position is the former one plus the momentum. *)
Lemma adjustPosition_frame (b : Body.t) :
  Body.adjustPosition b
  = Body.mk (Body.mass b)
      (Position.addVector (Body.position b) (Body.momentum b))
      (Body.momentum b) (Body.trailLength b)
      (Body.trail (Body.adjustPosition b)) (Body.colorIndex b)
      (Body.trailThickness b).
Proof.
  destruct b as [m p v cap tr ci tt]. unfold Body.adjustPosition.
  body_simpl.
  destruct (negb (cap =? 0)%float && (number (length tr) <=? cap)%float);
    body_simpl;
    match goal with
    | |- context [(cap <? ?n)%float] => destruct (cap <? n)%float
    end; reflexivity.
Qed.

Lemma adjustPosition_advanceUpTo (b : Body.t) (k : Z) :
  Spec.wholeCapacity b k -> Spec.anArray (Body.trail b) ->
  Body.adjustPosition b = Spec.advanceUpTo k b.
Proof.
  destruct b as [m p v cap tr ci tt].
  unfold Spec.wholeCapacity. cbn [Body.trailLength Body.trail].
  intros [Hk ->] Harr.
  unfold Body.adjustPosition, Spec.advanceUpTo, Spec.advanceWith, number.
  body_simpl. change 0%float with (ofZ 0).
  rewrite ofZ_eqb, ofZ_leb by safe_int.
  assert (Hc : negb (k =? 0) && (Z.of_nat (length tr) <=? k)
               = (0 <? k) && (Z.of_nat (length tr) <=? k)).
  { destruct (Z.eqb_spec k 0), (Z.ltb_spec 0 k); simpl; try reflexivity;
      lia. }
  rewrite Hc. clear Hc.
  destruct ((0 <? k) && (Z.of_nat (length tr) <=? k)) eqn:Happ; body_simpl.
  - apply andb_prop in Happ as [H0 Hle].
    apply Z.ltb_lt in H0. apply Z.leb_le in Hle.
    rewrite ofZ_ltb by safe_int.
    destruct (Z.ltb_spec k
                (Z.of_nat (length (tr ++ [[Position.x p; Position.y p]]))))
      as [Htrim|Htrim]; body_simpl; [|reflexivity].
    unfold spliceCount.
    rewrite ofZ_sub, ToIntegerOrInfinity_ofZ, splice_head by safe_int.
    cbn [snd]. do 2 f_equal. lia.
  - rewrite ofZ_ltb by safe_int.
    destruct (Z.ltb_spec k (Z.of_nat (length tr))) as [Htrim|Htrim];
      body_simpl; [|reflexivity].
    unfold spliceCount.
    rewrite ofZ_sub, ToIntegerOrInfinity_ofZ, splice_head by safe_int.
    cbn [snd]. do 2 f_equal. lia.
Qed.

(** ** The displacement loop *)

Lemma adjustPositionAt_prefix (l : list Body.t) k b :
  l !! k = Some b ->
  adjustPositionAt k (map Body.adjustPosition (take k l) ++ drop k l)
  = map Body.adjustPosition (take (S k) l) ++ drop (S k) l.
Proof.
  intros Hk. unfold adjustPositionAt.
  assert (Hlen : length (map Body.adjustPosition (take k l)) = k).
  { rewrite length_map, length_take. apply lookup_lt_Some in Hk. lia. }
  rewrite lookup_app_r, Hlen, Nat.sub_diag, lookup_drop, Nat.add_0_r, Hk
    by lia.
  rewrite insert_app_r_alt, Hlen, Nat.sub_diag by lia.
  rewrite (drop_S _ _ _ Hk), (take_S_r _ _ _ Hk), map_app. simpl.
  rewrite <- app_assoc. reflexivity.
Qed.

Lemma updatePositions_map (c : BodyCollection.t) :
  bodies (updatePositions c) = map Body.adjustPosition (bodies c).
Proof.
  unfold updatePositions, for_range. cbn [bodies].
  set (l := bodies c).
  enough (H : forall n k, (k + n = length l)%nat ->
            fold_left (fun acc i => adjustPositionAt i acc) (seq k n)
              (map Body.adjustPosition (take k l) ++ drop k l)
            = map Body.adjustPosition l).
  { specialize (H (length l) 0%nat). rewrite take_0, drop_0 in H.
    apply H. lia. }
  induction n as [|n IH]; intros k Hk; simpl.
  - rewrite take_ge, drop_ge, app_nil_r by lia. reflexivity.
  - destruct (lookup_lt_is_Some_2 l k) as [b Hb]; [lia|].
    rewrite (adjustPositionAt_prefix _ _ _ Hb). apply IH. lia.
Qed.

(** ** The accumulation loop *)

(** Whatever [adjustVector] leaves alone in a body, [updateVectors] leaves
    alone in every body. *)
Lemma updateVectors_frame {A} (f : Body.t -> A) (c : BodyCollection.t) :
  (forall b b', f (Body.adjustVector b b') = f b) ->
  map f (bodies (updateVectors c)) = map f (bodies c).
Proof.
  intros Hf. unfold updateVectors. cbn [bodies].
  apply (for_range_invariant (fun bs => map f bs = map f (bodies c)));
    [|reflexivity].
  intros i bs Hbs.
  apply (for_range_invariant (fun bs => map f bs = map f (bodies c)));
    [|exact Hbs].
  clear bs Hbs. intros j bs Hbs.
  destruct (decide (i = j)); [exact Hbs|].
  unfold adjustVectorAt.
  destruct (bs !! i) as [bi|] eqn:Hi; [|exact Hbs].
  destruct (bs !! j) as [bj|]; [|exact Hbs].
  rewrite <- Hbs, list_fmap_insert, Hf.
  apply list_insert_id. rewrite list_lookup_fmap, Hi. reflexivity.
Qed.

Lemma updateVectors_length (c : BodyCollection.t) :
  length (bodies (updateVectors c)) = length (bodies c).
Proof.
  rewrite <- (length_map (fun _ => tt)), updateVectors_frame, length_map;
    auto.
Qed.

(** ** The cosmetic attributes and the simulation *)

Lemma plain_adjustVector (a b : Body.t) :
  Body.adjustVector (Spec.plain a) (Spec.plain b)
  = Spec.plain (Body.adjustVector a b).
Proof. destruct a, b. reflexivity. Qed.

Lemma plain_adjustPosition (b : Body.t) :
  Body.adjustPosition (Spec.plain b) = Spec.plain (Body.adjustPosition b).
Proof.
  destruct b as [m p v cap tr ci tt].
  unfold Body.adjustPosition, Spec.plain. body_simpl.
  destruct (negb (cap =? 0)%float && (number (length tr) <=? cap)%float);
    body_simpl;
    match goal with
    | |- context [(cap <? ?n)%float] => destruct (cap <? n)%float
    end; reflexivity.
Qed.

Lemma physics_plain (b : Body.t) : Spec.physics (Spec.plain b) = Spec.physics b.
Proof. destruct b. reflexivity. Qed.

Lemma map_physics_plain (bs : list Body.t) :
  map Spec.physics (map Spec.plain bs) = map Spec.physics bs.
Proof. rewrite map_map. apply map_ext, physics_plain. Qed.

Lemma plain_physics (bs1 bs2 : list Body.t) :
  map Spec.physics bs1 = map Spec.physics bs2 ->
  map Spec.plain bs1 = map Spec.plain bs2.
Proof.
  set (rebuild := fun '(m, p, v, n, tr) => Body.mk m p v n tr 0 2%float).
  assert (H : forall bs, map Spec.plain bs = map rebuild (map Spec.physics bs)).
  { intros bs. rewrite map_map. apply map_ext. intros []. reflexivity. }
  intros Heq. rewrite !H, Heq. reflexivity.
Qed.

Lemma adjustVectorAt_plain i j (bs : list Body.t) :
  adjustVectorAt i j (map Spec.plain bs)
  = map Spec.plain (adjustVectorAt i j bs).
Proof.
  unfold adjustVectorAt. rewrite !list_lookup_fmap.
  destruct (bs !! i) as [bi|], (bs !! j) as [bj|]; simpl; try reflexivity.
  rewrite plain_adjustVector, list_fmap_insert. reflexivity.
Qed.

Lemma updateVectors_plain (bs : list Body.t) :
  bodies (updateVectors (mk (map Spec.plain bs)))
  = map Spec.plain (bodies (updateVectors (mk bs))).
Proof.
  unfold updateVectors. cbn [bodies]. rewrite length_map.
  apply for_range_commute. intros i s. rewrite length_map.
  apply for_range_commute. intros j s'.
  destruct (decide (i = j)); [reflexivity|]. apply adjustVectorAt_plain.
Qed.

Lemma updateSimulation_plain (bs : list Body.t) :
  bodies (updateSimulation (mk (map Spec.plain bs)))
  = map Spec.plain (bodies (updateSimulation (mk bs))).
Proof.
  unfold updateSimulation. rewrite !updatePositions_map, updateVectors_plain.
  rewrite !map_map. apply map_ext. intros b. apply plain_adjustPosition.
Qed.

Lemma updateSimulation_physics (c1 c2 : BodyCollection.t) :
  map Spec.physics (bodies c1) = map Spec.physics (bodies c2) ->
  map Spec.physics (bodies (updateSimulation c1))
  = map Spec.physics (bodies (updateSimulation c2)).
Proof.
  destruct c1 as [bs1], c2 as [bs2]. cbn [bodies]. intros H.
  apply plain_physics in H.
  rewrite <- (map_physics_plain (bodies (updateSimulation (mk bs1)))).
  rewrite <- (map_physics_plain (bodies (updateSimulation (mk bs2)))).
  rewrite <- 2!updateSimulation_plain, H. reflexivity.
Qed.

Lemma runSimulation_physics n : forall c1 c2 : BodyCollection.t,
  map Spec.physics (bodies c1) = map Spec.physics (bodies c2) ->
  map Spec.physics (bodies (runSimulation n c1))
  = map Spec.physics (bodies (runSimulation n c2)).
Proof.
  induction n as [|n IH]; intros c1 c2 H; simpl; [exact H|].
  apply IH, updateSimulation_physics, H.
Qed.

(** ** The trail bound *)

Lemma wholeBounded_trailBounded (b : Body.t) :
  Spec.wholeBounded b -> Spec.trailBounded b.
Proof.
  intros (k & [Hk Hcap] & Hlen). unfold Spec.trailBounded, number.
  rewrite Hcap, ofZ_leb by safe_int. apply Z.leb_le, Hlen.
Qed.


Lemma adjustPosition_trailLength (b : Body.t) :
  Body.trailLength (Body.adjustPosition b) = Body.trailLength b.
Proof. rewrite adjustPosition_frame. reflexivity. Qed.

Lemma adjustPosition_trail_length (b : Body.t) (k : Z) :
  Spec.wholeCapacity b k -> Spec.anArray (Body.trail b) ->
  Z.of_nat (length (Body.trail (Body.adjustPosition b))) <= k.
Proof.
  intros Hk Harr. rewrite (adjustPosition_advanceUpTo b k Hk Harr).
  destruct Hk as [Hk _]. destruct b as [m p v cap tr ci tt].
  unfold Spec.advanceUpTo, Spec.advanceWith. body_simpl.
  destruct (Z.ltb_spec 0 k), (Z.leb_spec (Z.of_nat (length tr)) k);
    cbn [andb];
    match goal with
    | |- context [k <? ?n] => destruct (Z.ltb_spec k n)
    end; rewrite ?length_drop, ?length_app in *; simpl in *; lia.
Qed.




(** ** The centre of mass *)

Lemma for_range_lookup {A S} (g : S -> A -> S) (l : list A) (a : S) :
  for_range (length l)
    (fun i acc => match l !! i with Some b => g acc b | None => acc end) a
  = fold_left g l a.
Proof.
  unfold for_range.
  enough (H : forall n k a, (k + n = length l)%nat ->
            fold_left
              (fun acc i =>
                 match l !! i with Some b => g acc b | None => acc end)
              (seq k n) a
            = fold_left g (drop k l) a).
  { rewrite (H (length l) 0%nat a), drop_0; [reflexivity | lia]. }
  induction n as [|n IH]; intros k a' Hk; simpl.
  - rewrite drop_ge by lia. reflexivity.
  - destruct (lookup_lt_is_Some_2 l k) as [b Hb]; [lia|].
    rewrite Hb, (drop_S _ _ _ Hb). simpl. apply IH. lia.
Qed.

Lemma fold_left_three {A} (fx fy fm : A -> float) (l : list A) :
  forall x y m : float,
  fold_left
    (fun '(xc, yc, mc) b =>
       ((xc + fx b)%float, (yc + fy b)%float, (mc + fm b)%float)) l (x, y, m)
  = (fold_left PrimFloat.add (map fx l) x,
     fold_left PrimFloat.add (map fy l) y,
     fold_left PrimFloat.add (map fm l) m).
Proof.
  induction l as [|b l IH]; intros x y m; simpl; [reflexivity|]. apply IH.
Qed.

Lemma comLoop_sums (bs : list Body.t) :
  comLoop bs
  = (Spec.sum (map (fun b => Body.x b * Body.mass b)%float bs),
     Spec.sum (map (fun b => Body.y b * Body.mass b)%float bs),
     Spec.sum (map Body.mass bs)).
Proof.
  unfold comLoop, Spec.sum.
  rewrite <- (fold_left_three (fun b => Body.x b * Body.mass b)%float
                (fun b => Body.y b * Body.mass b)%float Body.mass).
  rewrite <- for_range_lookup.
  apply for_range_ext. intros i [[xc yc] mc].
  destruct (bs !! i); reflexivity.
Qed.

(** ** Numbers *)

Lemma float_eq_eqb (u v : float) : u = v -> PrimFloat.eqb u v = PrimFloat.eqb v v.
Proof. intros ->. reflexivity. Qed.

(** * The simulation step *)

(** C1 (phase barrier).  For the collection of A (mass 1 at (0,0)) and B
    (mass 1 at (10,0)), both at rest and without a trail, the coefficient
    of the pair is exactly 0.005 in either direction.  The accumulation
    phase gives A the momentum (0.05, 0) and B the momentum (-0.05, 0)
    while both positions are still the ones before the step; only then
    does the displacement phase move the two bodies, by these momenta. *)
Theorem two_body_step_phase_barrier :
  forall (colorA colorB : float) (thickA thickB : float),
    let A := Sample.bodyA colorA thickA in
    let B := Sample.bodyB colorB thickB in
    let c := mk [A; B] in
    Body.gravCoeff A B = 0.005%float /\
    Body.gravCoeff B A = 0.005%float /\
    bodies (updateVectors c)
    = [ Body.set_momentum (MotionVector.mk 0.05 0) A;
        Body.set_momentum (MotionVector.mk (-0.05) 0) B ] /\
    map Body.position (bodies (updateVectors c)) = map Body.position [A; B] /\
    updateSimulation c = updatePositions (updateVectors c) /\
    bodies (updateSimulation c)
    = [ Body.mk 1 (Position.mk 0.05 0) (MotionVector.mk 0.05 0) 0 []
          colorA thickA;
        Body.mk 1 (Position.mk 9.95 0) (MotionVector.mk (-0.05) 0) 0 []
          colorB thickB ].
Proof.
  intros colorA colorB thickA thickB A B c.
  repeat split; vm_compute; reflexivity.
Qed.

(** * Growing the collection *)

(** C2 (capacity).  On a collection that holds 10 bodies, [addBodyCustom]
    and [addBody] throw "Body count limit reached." (the specification's
    CapacityExceeded) and the collection is the one before the call, with
    the same bodies in the same order.  On a collection of fewer than 10
    bodies they append exactly one body, the one the constructor builds
    from the arguments, and return it. *)
Theorem addBody_capacity :
  forall (c : BodyCollection.t) (draw : float)
         (mass posx posy momx momy : float),
    (length (bodies c) = 10%nat ->
     addBodyCustom draw mass posx posy momx momy c
     = (Throw "Body count limit reached.", c) /\
     addBody draw posx posy c = (Throw "Body count limit reached.", c)) /\
    ((length (bodies c) < 10)%nat ->
     (let b := Body.new draw mass (Position.mk posx posy)
                 (MotionVector.mk momx momy) in
      addBodyCustom draw mass posx posy momx momy c
      = (Return b, mk (bodies c ++ [b]))) /\
     (let b := Body.new draw 1 (Position.mk posx posy)
                 (MotionVector.mk 0 0) in
      addBody draw posx posy c = (Return b, mk (bodies c ++ [b])))).
Proof.
  intros c draw mass posx posy momx momy.
  unfold addBody, addBodyCustom, MAX_BODIES, push. split; intros Hlen.
  - rewrite Hlen. simpl. split; reflexivity.
  - destruct (Z.geb_spec (Z.of_nat (length (bodies c))) 10) as [Hge|Hlt];
      [lia|]. split; reflexivity.
Qed.

Lemma addBody_capacity_witness :
  (addBodyCustom 3 1 5 5 0 0 Sample.tenBodies
   = (Throw "Body count limit reached.", Sample.tenBodies) /\
   addBody 3 5 5 Sample.tenBodies
   = (Throw "Body count limit reached.", Sample.tenBodies)) /\
  (addBodyCustom 3 1 5 5 0 0 (mk [])
   = (Return (Body.new 3 1 (Position.mk 5 5) (MotionVector.mk 0 0)),
      mk [Body.new 3 1 (Position.mk 5 5) (MotionVector.mk 0 0)]) /\
   addBody 3 5 5 (mk [])
   = (Return (Body.new 3 1 (Position.mk 5 5) (MotionVector.mk 0 0)),
      mk [Body.new 3 1 (Position.mk 5 5) (MotionVector.mk 0 0)])).
Proof.
  split.
  - apply (proj1 (addBody_capacity Sample.tenBodies 3 1 5 5 0 0)).
    reflexivity.
  - apply (proj2 (addBody_capacity (mk []) 3 1 5 5 0 0)). simpl. lia.
Defined.

(** * The centre of mass *)

(** C5, as the specification states it, fails: on the empty collection
    [centerOfMass] throws nothing.  It returns the position (NaN, NaN). *)
Lemma centerOfMass_empty_returns :
  centerOfMass (mk []) = Return (Position.mk nan nan) /\
  ~ (exists message, centerOfMass (mk []) = Throw message).
Proof.
  split; [reflexivity|]. intros [message H]. discriminate H.
Qed.

(** C5, amended.  On every collection of zero bodies [centerOfMass] does
    not fail: both sums and the total mass are 0, and it returns the
    position whose two coordinates are 0/0, that is NaN. *)
Theorem centerOfMass_empty :
  forall c : BodyCollection.t,
    bodies c = [] ->
    centerOfMass c = Return (Position.mk (0 / 0) (0 / 0)) /\
    centerOfMass c = Return (Position.mk nan nan).
Proof.
  intros [bs] H. simpl in H. subst bs. split; reflexivity.
Qed.

Lemma centerOfMass_empty_witness :
  centerOfMass (mk []) = Return (Position.mk (0 / 0) (0 / 0)) /\
  centerOfMass (mk []) = Return (Position.mk nan nan).
Proof. apply (centerOfMass_empty (mk [])). reflexivity. Defined.

(** C6 (centre of mass).  On every non-empty collection [centerOfMass]
    returns the mass-weighted average of the positions,
    Σ(position_i * mass_i) / Σ(mass_i) on each coordinate, the sums taken
    in the order of the bodies.  For A (mass 1 at (0,0)) and B (mass 1 at
    (10,0)) this is (5, 0). *)
Theorem centerOfMass_weighted_average :
  (forall c : BodyCollection.t,
     bodies c <> [] ->
     centerOfMass c = Return (Spec.weightedAverage (bodies c))) /\
  (forall (colorA colorB : float) (thickA thickB : float),
     centerOfMass
       (mk [Sample.bodyA colorA thickA; Sample.bodyB colorB thickB])
     = Return (Position.mk 5 0)).
Proof.
  split.
  - intros c _. unfold centerOfMass, Spec.weightedAverage.
    rewrite comLoop_sums. reflexivity.
  - intros. vm_compute. reflexivity.
Qed.

Lemma centerOfMass_weighted_average_witness :
  centerOfMass (mk [Sample.bodyA 0 2; Sample.bodyB 0 2])
  = Return (Spec.weightedAverage [Sample.bodyA 0 2; Sample.bodyB 0 2]).
Proof.
  apply (proj1 centerOfMass_weighted_average
           (mk [Sample.bodyA 0 2; Sample.bodyB 0 2])).
  simpl. discriminate.
Defined.

(** * The trail capacity *)

(** C8 (validation of the trail capacity).  [setTrailLength n] throws
    "Invalid trail length" (the specification's InvalidArgument) exactly
    when [n < 0] or [n > 100000], and then the body is the one before the
    call; otherwise it returns and the capacity is [n].  This holds for
    every number [n], as numbers compare, and for every integer.  So -1
    and 100001 are refused, 0 and 100000 are accepted. *)
Theorem setTrailLength_validation :
  forall b : Body.t,
    (forall n : float,
       (((n <? 0)%float = true \/ (100000 <? n)%float = true) <->
        exists message, fst (Body.setTrailLength n b) = Throw message) /\
       ((n <? 0)%float = true \/ (100000 <? n)%float = true ->
        Body.setTrailLength n b = (Throw "Invalid trail length", b)) /\
       ((n <? 0)%float = false /\ (100000 <? n)%float = false ->
        Body.setTrailLength n b = (Return tt, Body.set_trailLength n b) /\
        Body.trailLength (snd (Body.setTrailLength n b)) = n)) /\
    (forall k : Z,
       - 2 ^ 53 < k < 2 ^ 53 ->
       ((k < 0 \/ k > 100000) <->
        exists message, fst (Body.setTrailLength (ofZ k) b) = Throw message) /\
       (k < 0 \/ k > 100000 ->
        Body.setTrailLength (ofZ k) b = (Throw "Invalid trail length", b)) /\
       (0 <= k <= 100000 ->
        Body.setTrailLength (ofZ k) b
        = (Return tt, Body.set_trailLength (ofZ k) b) /\
        Body.trailLength (snd (Body.setTrailLength (ofZ k) b)) = ofZ k)) /\
    Body.setTrailLength (-1) b = (Throw "Invalid trail length", b) /\
    Body.setTrailLength 100001 b = (Throw "Invalid trail length", b) /\
    Body.setTrailLength 0 b = (Return tt, Body.set_trailLength 0 b) /\
    Body.setTrailLength 100000 b
    = (Return tt, Body.set_trailLength 100000 b).
Proof.
  intros b.
  assert (Hn : forall n : float,
             (((n <? 0)%float = true \/ (100000 <? n)%float = true) <->
              exists message, fst (Body.setTrailLength n b) = Throw message) /\
             ((n <? 0)%float = true \/ (100000 <? n)%float = true ->
              Body.setTrailLength n b = (Throw "Invalid trail length", b)) /\
             ((n <? 0)%float = false /\ (100000 <? n)%float = false ->
              Body.setTrailLength n b = (Return tt, Body.set_trailLength n b) /\
              Body.trailLength (snd (Body.setTrailLength n b)) = n)).
  { intros n. unfold Body.setTrailLength.
    destruct (n <? 0)%float, (100000 <? n)%float; cbn [orb fst snd].
    1-3: split; [split; [intros _; eexists; reflexivity | auto]|];
         split; [intros _; reflexivity|];
         intros [H1 H2]; try discriminate H1; discriminate H2.
    split; [split; [intros [H|H]; discriminate H
                   | intros [message H]; discriminate H]|].
    split; [intros [H|H]; discriminate H|].
    intros _. split; reflexivity. }
  split; [exact Hn|]. split; [|repeat split; reflexivity].
  intros k Hk.
  assert (H0 : (ofZ k <? 0)%float = (k <? 0)).
  { change 0%float with (ofZ 0). apply (ofZ_ltb_signed k 0); lia. }
  assert (H1 : (100000 <? ofZ k)%float = (100000 <? k)).
  { change 100000%float with (ofZ 100000).
    apply (ofZ_ltb_signed k 100000); lia. }
  destruct (Hn (ofZ k)) as (Ha & Hb & Hc). rewrite H0, H1 in Ha, Hb, Hc.
  split; [|split].
  - rewrite <- Ha, !Z.ltb_lt. lia.
  - intros H. apply Hb. rewrite !Z.ltb_lt. lia.
  - intros H. apply Hc. rewrite !Z.ltb_ge. lia.
Qed.

Lemma setTrailLength_validation_witness :
  Body.setTrailLength 100001 Sample.twoEntries
  = (Throw "Invalid trail length", Sample.twoEntries) /\
  Body.setTrailLength 2.5 Sample.twoEntries
  = (Return tt, Body.set_trailLength 2.5 Sample.twoEntries) /\
  Body.trailLength (snd (Body.setTrailLength (ofZ 100000) Sample.twoEntries))
  = ofZ 100000.
Proof.
  split; [|split].
  - apply (proj1 (proj2 (proj1 (setTrailLength_validation Sample.twoEntries)
                           100001%float))).
    right. reflexivity.
  - apply (proj2 (proj2 (proj1 (setTrailLength_validation Sample.twoEntries)
                           2.5%float))).
    split; reflexivity.
  - apply (proj2 (proj2 (proj1 (proj2
             (setTrailLength_validation Sample.twoEntries)) 100000
             ltac:(assert (2 ^ 53 = 9007199254740992) by reflexivity; lia)))).
    lia.
Defined.

(** * One displacement *)

(** C3, as the specification states it, fails: a body whose trail is full
    (one entry, capacity 1) still gets its position appended, and the trim
    then drops the oldest entry.  Appending only strictly below the
    capacity would have kept the old entry. *)
Lemma adjustPosition_appends_when_full :
  Spec.wholeCapacity Sample.fullTrail 1 /\
  Body.trail (Body.adjustPosition Sample.fullTrail) = [[1; 1]]%float /\
  Body.trail (Spec.advanceStrictlyBelow 1 Sample.fullTrail)
  = [[0; 0]]%float /\
  Body.adjustPosition Sample.fullTrail
  <> Spec.advanceStrictlyBelow 1 Sample.fullTrail.
Proof.
  split; [split; [lia | reflexivity]|].
  split; [vm_compute; reflexivity|]. split; [reflexivity|]. intros H.
  apply (f_equal Body.trail) in H. vm_compute in H.
  assert (H1 : 1%float = 0%float) by congruence.
  apply float_eq_eqb in H1. vm_compute in H1. discriminate H1.
Qed.

(** C3, amended.  For a body whose capacity is a whole number (of
    0..100000, what [setTrailLength] accepts) and whose trail is an array,
    [adjustPosition] performs these steps in order: it appends the
    position before the step to the trail only if the capacity is
    positive and the trail length is at most the capacity (a full trail
    still takes the entry); then, if the trail is longer than the
    capacity, it trims entries from the head down to exactly the
    capacity; finally it adds the momentum to the position.  The appended
    entry is the position before the displacement and is the last one of
    the trail; a trail that was full or over-full holds exactly the
    capacity afterwards. *)
Theorem adjustPosition_steps :
  forall (b : Body.t) (cap : Z),
    Spec.wholeCapacity b cap ->
    Spec.anArray (Body.trail b) ->
    let len := Z.of_nat (length (Body.trail b)) in
    Body.adjustPosition b = Spec.advanceUpTo cap b /\
    (0 < cap -> len <= cap ->
     last (Body.trail (Body.adjustPosition b))
     = Some (Position.exportCoordinates (Body.position b))) /\
    (cap <= len ->
     Z.of_nat (length (Body.trail (Body.adjustPosition b))) = cap) /\
    Body.position (Body.adjustPosition b)
    = Position.addVector (Body.position b) (Body.momentum b).
Proof.
  intros b cap Hcap Harr len. subst len.
  rewrite (adjustPosition_advanceUpTo b cap Hcap Harr).
  split; [reflexivity|]. destruct Hcap as [Hcap _]. clear Harr.
  destruct b as [m p v c tr ci tt].
  unfold Spec.advanceUpTo, Spec.advanceWith. body_simpl.
  split; [|split; [|reflexivity]].
  - intros Hpos Hlen.
    destruct (Z.ltb_spec 0 cap); [|lia].
    destruct (Z.leb_spec (Z.of_nat (length tr)) cap); [|lia].
    cbn [andb].
    destruct (Z.ltb_spec cap
                (Z.of_nat (length (tr ++ [[Position.x p; Position.y p]]))));
      [|apply last_snoc].
    rewrite last_lookup, length_drop, lookup_drop, length_app in *.
    simpl in *.
    replace (length tr + 1 - Z.to_nat cap
             + Nat.pred (length tr + 1 - (length tr + 1 - Z.to_nat cap)))%nat
      with (length tr + 0)%nat by lia.
    rewrite lookup_app_r, Nat.add_0_r, Nat.sub_diag by lia. reflexivity.
  - intros Hlen.
    destruct (Z.ltb_spec 0 cap), (Z.leb_spec (Z.of_nat (length tr)) cap);
      cbn [andb];
      match goal with
      | |- context [cap <? ?n] => destruct (Z.ltb_spec cap n)
      end; rewrite ?length_drop, ?length_app in *; simpl in *; lia.
Qed.

Lemma adjustPosition_steps_witness :
  Body.adjustPosition Sample.fullTrail = Spec.advanceUpTo 1 Sample.fullTrail /\
  last (Body.trail (Body.adjustPosition Sample.fullTrail))
  = Some (Position.exportCoordinates (Body.position Sample.fullTrail)) /\
  Z.of_nat (length (Body.trail (Body.adjustPosition Sample.fullTrail))) = 1.
Proof.
  destruct (adjustPosition_steps Sample.fullTrail 1) as (H1 & H2 & H3 & _).
  - split; [lia | reflexivity].
  - unfold Spec.anArray. simpl. lia.
  - split; [exact H1|]. split; [apply H2 | apply H3]; simpl; lia.
Defined.




(** * Removing a body *)

(** C7, as the specification states it, fails: with an index past the end
    [removeBody] throws nothing, it returns [undefined] and leaves the
    collection as it is; with a negative index it removes a body counted
    from the end. *)
Lemma removeBody_invalid_index_returns :
  removeBody 5 (mk [Sample.bodyA 0 2])
  = (Return None, mk [Sample.bodyA 0 2]) /\
  removeBody (-1) (mk [Sample.bodyA 0 2; Sample.bodyB 0 2])
  = (Return (Some (Sample.bodyB 0 2)), mk [Sample.bodyA 0 2]) /\
  ~ (exists message,
       fst (removeBody 5 (mk [Sample.bodyA 0 2])) = Throw message).
Proof.
  split; [reflexivity|]. split; [reflexivity|].
  intros [message H]. discriminate H.
Qed.

(** C7, amended.  [removeBody index] never fails.  With a valid index
    ([0 ≤ index < number of bodies]) it removes the body at that index and
    returns it.  With an index at or past the end it returns [undefined]
    and the collection is unchanged.  A negative index counts from the
    end: the call behaves as at index [max (number of bodies + index) 0]. *)
Theorem removeBody_splice :
  forall (c : BodyCollection.t) (index : Z),
    let len := Z.of_nat (length (bodies c)) in
    (0 <= index < len ->
     exists b,
       bodies c !! Z.to_nat index = Some b /\
       removeBody index c
       = (Return (Some b), mk (delete (Z.to_nat index) (bodies c)))) /\
    (len <= index -> removeBody index c = (Return None, c)) /\
    (index < 0 -> removeBody index c = removeBody (Z.max (len + index) 0) c).
Proof.
  intros [bs] index len. subst len. cbn [bodies].
  unfold removeBody, splice. cbn [bodies]. repeat split.
  - intros [Hlo Hhi].
    destruct (lookup_lt_is_Some_2 bs (Z.to_nat index)) as [b Hb]; [lia|].
    exists b. split; [exact Hb|].
    destruct (Z.ltb_spec index 0); [lia|].
    rewrite (Z.min_l index), (Z.max_l 1), (Z.min_l 1) by lia.
    change (Z.to_nat 1) with 1%nat.
    rewrite (drop_S _ _ _ Hb), delete_take_drop.
    replace (Z.to_nat index + 1)%nat with (S (Z.to_nat index)) by lia.
    reflexivity.
  - intros Hge.
    destruct (Z.ltb_spec index 0); [lia|].
    rewrite (Z.min_r index), Z.sub_diag by lia.
    change (Z.to_nat (Z.min (Z.max 1 0) 0)) with 0%nat.
    rewrite Nat2Z.id, Nat.add_0_r, (take_ge bs), (drop_ge bs), app_nil_r
      by lia.
    reflexivity.
  - intros Hneg.
    destruct (Z.ltb_spec index 0); [|lia].
    destruct (Z.ltb_spec (Z.max (Z.of_nat (length bs) + index) 0) 0); [lia|].
    rewrite (Z.min_l (Z.max (Z.of_nat (length bs) + index) 0)) by lia.
    reflexivity.
Qed.

Lemma removeBody_splice_witness :
  (exists b,
     [Sample.bodyA 0 2; Sample.bodyB 0 2] !! Z.to_nat 1 = Some b /\
     removeBody 1 (mk [Sample.bodyA 0 2; Sample.bodyB 0 2])
     = (Return (Some b),
        mk (delete (Z.to_nat 1) [Sample.bodyA 0 2; Sample.bodyB 0 2]))) /\
  removeBody 2 (mk [Sample.bodyA 0 2; Sample.bodyB 0 2])
  = (Return None, mk [Sample.bodyA 0 2; Sample.bodyB 0 2]) /\
  removeBody (-1) (mk [Sample.bodyA 0 2; Sample.bodyB 0 2])
  = removeBody (Z.max (2 + -1) 0) (mk [Sample.bodyA 0 2; Sample.bodyB 0 2]).
Proof.
  split; [|split].
  - apply (proj1 (removeBody_splice
                    (mk [Sample.bodyA 0 2; Sample.bodyB 0 2]) 1)).
    simpl. lia.
  - apply (proj1 (proj2 (removeBody_splice
                           (mk [Sample.bodyA 0 2; Sample.bodyB 0 2]) 2))).
    simpl. lia.
  - apply (proj2 (proj2 (removeBody_splice
                           (mk [Sample.bodyA 0 2; Sample.bodyB 0 2]) (-1)))).
    lia.
Defined.

(** * Cosmetic attributes *)

(** C9 (the cosmetic attributes do not influence the physics).  Two
    collections whose bodies agree on mass, position, momentum, trail
    capacity and trail, whatever their colour indices and trail
    thicknesses, still agree on all of these after one simulation step and
    after any number of steps. *)
Theorem cosmetics_do_not_influence_physics :
  forall (c1 c2 : BodyCollection.t) (n : nat),
    map Spec.physics (bodies c1) = map Spec.physics (bodies c2) ->
    map Spec.physics (bodies (updateSimulation c1))
    = map Spec.physics (bodies (updateSimulation c2)) /\
    map Spec.physics (bodies (runSimulation n c1))
    = map Spec.physics (bodies (runSimulation n c2)).
Proof.
  intros c1 c2 n H. split.
  - apply updateSimulation_physics, H.
  - apply runSimulation_physics, H.
Qed.

Lemma cosmetics_do_not_influence_physics_witness :
  map Spec.physics (bodies (updateSimulation Sample.trailing))
  = map Spec.physics (bodies (updateSimulation Sample.trailingRecoloured)) /\
  map Spec.physics (bodies (runSimulation 4 Sample.trailing))
  = map Spec.physics (bodies (runSimulation 4 Sample.trailingRecoloured)).
Proof.
  apply (cosmetics_do_not_influence_physics
           Sample.trailing Sample.trailingRecoloured 4).
  reflexivity.
Defined.

(** * Changing the trail capacity *)

(** C10, as the specification states it, fails: [setTrailLength 1.5]
    succeeds on a body whose trail holds two entries, and neither the
    next [adjustPosition] nor any later one trims the trail, which stays
    longer than the capacity: the trim removes the whole part of the
    excess 0.5, which is nothing. *)
Lemma setTrailLength_fraction_is_never_trimmed :
  fst (Body.setTrailLength 1.5 Sample.twoEntries) = Return tt /\
  Body.trail (snd (Body.setTrailLength 1.5 Sample.twoEntries))
  = Body.trail Sample.twoEntries /\
  Body.trail
    (Body.adjustPosition (snd (Body.setTrailLength 1.5 Sample.twoEntries)))
  = Body.trail Sample.twoEntries /\
  Body.trail
    (Nat.iter 5 Body.adjustPosition
       (snd (Body.setTrailLength 1.5 Sample.twoEntries)))
  = Body.trail Sample.twoEntries /\
  (Body.trailLength
     (Body.adjustPosition (snd (Body.setTrailLength 1.5 Sample.twoEntries)))
   <? number
        (length
           (Body.trail
              (Body.adjustPosition
                 (snd (Body.setTrailLength 1.5 Sample.twoEntries))))))%float
  = true.
Proof. repeat split; vm_compute; reflexivity. Qed.

(** C10, amended (frame of the capacity setter).  A successful
    [setTrailLength n], that is one whose argument is neither below 0 nor
    above 100000, changes the capacity and nothing else: the trail keeps
    its entries.  When [n] is a whole number below the length of the
    trail, the trail is longer than the new capacity after the call, and
    the next [adjustPosition] appends nothing and trims it from the head
    to its last [n] entries. *)
Theorem setTrailLength_frame :
  forall (b : Body.t) (n : float),
    (n <? 0)%float = false -> (100000 <? n)%float = false ->
    let b' := snd (Body.setTrailLength n b) in
    fst (Body.setTrailLength n b) = Return tt /\
    b' = Body.mk (Body.mass b) (Body.position b) (Body.momentum b) n
           (Body.trail b) (Body.colorIndex b) (Body.trailThickness b) /\
    Body.trail b' = Body.trail b /\
    (forall k : Z,
       n = ofZ k -> 0 <= k -> Spec.anArray (Body.trail b) ->
       k < Z.of_nat (length (Body.trail b)) ->
       (Body.trailLength b' <? number (length (Body.trail b')))%float = true /\
       Body.trail (Body.adjustPosition b')
       = drop (length (Body.trail b) - Z.to_nat k) (Body.trail b) /\
       Z.of_nat (length (Body.trail (Body.adjustPosition b'))) = k).
Proof.
  intros b n Hlo Hhi b'. subst b'. unfold Body.setTrailLength.
  rewrite Hlo, Hhi. cbn [orb fst snd].
  destruct b as [m p v cap tr ci tt]. body_simpl.
  split; [reflexivity|]. split; [reflexivity|]. split; [reflexivity|].
  intros k -> Hk Harr Hlen.
  assert (Hk' : k <= 100000).
  { change 100000%float with (ofZ 100000) in Hhi.
    rewrite ofZ_ltb in Hhi by safe_int. apply Z.ltb_ge, Hhi. }
  split.
  { unfold number. rewrite ofZ_ltb by safe_int. apply Z.ltb_lt, Hlen. }
  rewrite (adjustPosition_advanceUpTo _ k);
    [|split; [lia | reflexivity] | exact Harr].
  unfold Spec.advanceUpTo, Spec.advanceWith. body_simpl.
  destruct (Z.leb_spec (Z.of_nat (length tr)) k); [lia|].
  rewrite andb_false_r.
  destruct (Z.ltb_spec k (Z.of_nat (length tr))); [|lia].
  split; [reflexivity|]. rewrite length_drop. lia.
Qed.

Lemma setTrailLength_frame_witness :
  let b' := snd (Body.setTrailLength 1 Sample.twoEntries) in
  fst (Body.setTrailLength 1 Sample.twoEntries) = Return tt /\
  b' = Body.mk 1 (Position.mk 3 0) (MotionVector.mk 1 0) 1
         [[1; 0]; [2; 0]]%float 0 2 /\
  Body.trail b' = [[1; 0]; [2; 0]]%float /\
  (Body.trailLength b' <? number (length (Body.trail b')))%float = true /\
  Body.trail (Body.adjustPosition b') = [[2; 0]]%float /\
  Z.of_nat (length (Body.trail (Body.adjustPosition b'))) = 1.
Proof.
  destruct (setTrailLength_frame Sample.twoEntries 1) as (H1 & H2 & H3 & H4);
    [reflexivity | reflexivity |].
  destruct (H4 1) as (H5 & H6 & H7);
    [reflexivity | lia | unfold Spec.anArray; simpl; lia | simpl; lia |].
  repeat split; assumption.
Defined.

(** * Further properties of the engine *)

(** ** What a body reads of the others *)

Lemma adjustVector_reads (a b b' : Body.t) :
  Body.position b = Body.position b' -> Body.mass b = Body.mass b' ->
  Body.adjustVector a b = Body.adjustVector a b'.
Proof.
  intros Hp Hm. unfold Body.adjustVector, Body.gravCoeff.
  rewrite Hp, Hm. reflexivity.
Qed.

Lemma attracted_place (bs : list Body.t) i (b : Body.t) :
  Body.position (Phase.attracted bs i b) = Body.position b /\
  Body.mass (Phase.attracted bs i b) = Body.mass b.
Proof.
  unfold Phase.attracted. generalize (delete i bs) as others.
  intros others. revert b.
  induction others as [|o others IH]; intros b; simpl; [auto|].
  destruct (IH (Body.adjustVector b o)) as [-> ->]. auto.
Qed.

Lemma delete_snoc_ne {A} (l : list A) i x :
  i <> length l -> delete i (l ++ [x]) = delete i l ++ [x].
Proof.
  revert i. induction l as [|y l IH]; intros [|i] Hi; simpl in *;
    try reflexivity; try lia.
  f_equal. apply IH. lia.
Qed.

Lemma delete_out_of_range {A} (l : list A) i :
  (length l <= i)%nat -> delete i l = l.
Proof.
  revert i. induction l as [|y l IH]; intros [|i] Hi; simpl in *;
    try reflexivity; try lia.
  f_equal. apply IH. lia.
Qed.

(** The inner loop of [updateVectors], for the body of index [i]: the
    bodies it reads are at the places of [bs]. *)
Lemma updateVectors_inner (bs s : list Body.t) i (a : Body.t) :
  map Phase.place s = map Phase.place bs ->
  s !! i = Some a ->
  for_range (length s)
    (fun j s => if decide (i = j) then s else adjustVectorAt i j s) s
  = <[i := Phase.attracted bs i a]> s.
Proof.
  intros Hplace Hi.
  assert (Hlen : length s = length bs).
  { rewrite <- (length_map Phase.place s), Hplace, length_map.
    reflexivity. }
  enough (H : forall k, (k <= length s)%nat ->
            for_range k
              (fun j s => if decide (i = j) then s else adjustVectorAt i j s) s
            = <[i := fold_left Body.adjustVector (delete i (take k bs)) a]> s).
  { rewrite (H (length s)) by lia. rewrite Hlen, firstn_all. reflexivity. }
  induction k as [|k IH]; intros Hk.
  - simpl. rewrite list_insert_id; [reflexivity | exact Hi].
  - unfold for_range in *. rewrite seq_S, fold_left_app, IH by lia.
    cbn [fold_left Nat.add].
    destruct (lookup_lt_is_Some_2 bs k) as [bk Hbk]; [lia|].
    rewrite (take_S_r _ _ _ Hbk).
    destruct (decide (i = k)) as [->|Hne].
    + assert (Hk' : length (take k bs) = k) by (rewrite length_take; lia).
      assert (H1 : delete k (take k bs ++ [bk]) = take k bs).
      { rewrite <- Hk' at 1. rewrite delete_middle, app_nil_r. reflexivity. }
      rewrite H1, delete_out_of_range by lia. reflexivity.
    + rewrite delete_snoc_ne by (rewrite length_take; lia).
      rewrite fold_left_app. cbn [fold_left].
      set (ak := fold_left Body.adjustVector (delete i (take k bs)) a).
      unfold adjustVectorAt.
      rewrite list_lookup_insert_eq by (apply lookup_lt_Some in Hi; lia).
      rewrite list_lookup_insert_ne by exact Hne.
      destruct (lookup_lt_is_Some_2 s k) as [sk Hsk]; [lia|].
      rewrite Hsk, list_insert_insert_eq.
      f_equal. apply adjustVector_reads.
      * apply (f_equal (fun l => fst <$> l !! k)) in Hplace.
        rewrite !list_lookup_fmap, Hsk, Hbk in Hplace.
        simpl in Hplace. congruence.
      * apply (f_equal (fun l => snd <$> l !! k)) in Hplace.
        rewrite !list_lookup_fmap, Hsk, Hbk in Hplace.
        simpl in Hplace. congruence.
Qed.

Lemma for_range_S {S} (body : nat -> S -> S) n s :
  for_range (Datatypes.S n) body s = body n (for_range n body s).
Proof. unfold for_range. rewrite seq_S, fold_left_app. reflexivity. Qed.

Lemma imap_attracted_place (bs : list Body.t) :
  map Phase.place (imap (Phase.attracted bs) bs) = map Phase.place bs.
Proof.
  apply list_eq. intros i.
  rewrite !list_lookup_fmap, list_lookup_imap.
  destruct (bs !! i) as [b|]; simpl; [|reflexivity].
  unfold Phase.place. destruct (attracted_place bs i b) as [-> ->].
  reflexivity.
Qed.

Lemma updateVectors_attracted (bs : list Body.t) :
  bodies (updateVectors (mk bs)) = imap (Phase.attracted bs) bs.
Proof.
  unfold updateVectors. cbn [bodies].
  set (T := imap (Phase.attracted bs) bs).
  set (outer := fun (i : nat) (s : list Body.t) =>
                  for_range (length s)
                    (fun j s =>
                       if decide (i = j) then s else adjustVectorAt i j s) s).
  assert (HT : length T = length bs) by apply length_imap.
  enough (H : forall k, (k <= length bs)%nat ->
            for_range k outer bs = take k T ++ drop k bs).
  { rewrite (H (length bs)) by lia.
    rewrite take_ge, drop_ge, app_nil_r by lia. reflexivity. }
  induction k as [|k IH]; intros Hk; [reflexivity|].
  rewrite for_range_S, IH by lia. unfold outer at 1.
  destruct (lookup_lt_is_Some_2 bs k) as [bk Hbk]; [lia|].
  assert (Hlen : length (take k T) = k) by (rewrite length_take; lia).
  assert (HTk : T !! k = Some (Phase.attracted bs k bk)).
  { unfold T. rewrite list_lookup_imap, Hbk. reflexivity. }
  rewrite (updateVectors_inner bs _ k bk).
  - rewrite insert_app_r_alt, Hlen, Nat.sub_diag by lia.
    rewrite (drop_S _ _ _ Hbk), (take_S_r _ _ _ HTk). simpl.
    rewrite <- app_assoc. reflexivity.
  - rewrite map_app, <- firstn_map, <- skipn_map.
    unfold T. rewrite imap_attracted_place. apply take_drop.
  - rewrite lookup_app_r, Hlen, Nat.sub_diag, lookup_drop, Nat.add_0_r
      by lia.
    exact Hbk.
Qed.

(** ** The step, body by body *)

(** X1.  In one step the body of every index [i] is pulled on by all the
    other bodies, in the order of the array, each one read with the mass
    and the position it had before the step; only then is it displaced. *)
Theorem updateSimulation_body_by_body :
  forall c : BodyCollection.t,
    bodies (updateVectors c)
    = imap (Phase.attracted (bodies c)) (bodies c) /\
    bodies (updateSimulation c)
    = imap (fun i b => Body.adjustPosition (Phase.attracted (bodies c) i b))
        (bodies c).
Proof.
  intros [bs]. cbn [bodies]. split; [apply updateVectors_attracted|].
  unfold updateSimulation.
  rewrite updatePositions_map, updateVectors_attracted.
  apply list_eq. intros i.
  rewrite list_lookup_fmap, !list_lookup_imap.
  destruct (bs !! i); reflexivity.
Qed.

(** ** What the simulation leaves alone *)

Lemma adjustPosition_fixedPart (b : Body.t) :
  Phase.fixedPart (Body.adjustPosition b) = Phase.fixedPart b.
Proof. rewrite adjustPosition_frame. reflexivity. Qed.

Lemma updateSimulation_fixedPart (c : BodyCollection.t) :
  map Phase.fixedPart (bodies (updateSimulation c))
  = map Phase.fixedPart (bodies c).
Proof.
  unfold updateSimulation. rewrite updatePositions_map, map_map.
  rewrite (map_ext _ _ adjustPosition_fixedPart).
  apply updateVectors_frame. reflexivity.
Qed.

Lemma runSimulation_S_r n : forall c : BodyCollection.t,
  runSimulation (S n) c = updateSimulation (runSimulation n c).
Proof.
  induction n as [|n IH]; intros c; [reflexivity|].
  change (runSimulation (S (S n)) c)
    with (runSimulation (S n) (updateSimulation c)).
  rewrite IH. reflexivity.
Qed.

Lemma runSimulation_fixedPart n : forall c : BodyCollection.t,
  map Phase.fixedPart (bodies (runSimulation n c))
  = map Phase.fixedPart (bodies c).
Proof.
  induction n as [|n IH]; intros c; [reflexivity|].
  simpl. rewrite IH. apply updateSimulation_fixedPart.
Qed.

(** X2.  Simulation steps neither add nor remove a body, and they never
    change the mass, the trail capacity, the colour index or the trail
    thickness of a body: only positions, momenta and trails move. *)
Theorem simulation_keeps_fixed_part :
  forall (c : BodyCollection.t) (n : nat),
    length (bodies (runSimulation n c)) = length (bodies c) /\
    map Phase.fixedPart (bodies (runSimulation n c))
    = map Phase.fixedPart (bodies c).
Proof.
  intros c n. split; [|apply runSimulation_fixedPart].
  rewrite <- (length_map Phase.fixedPart), runSimulation_fixedPart.
  apply length_map.
Qed.

(** ** The trail as a sliding window *)

Lemma mostRecent_snoc {A} (n : nat) (l : list A) (x : A) :
  (0 < n)%nat ->
  Phase.mostRecent n (Phase.mostRecent n l ++ [x])
  = Phase.mostRecent n (l ++ [x]).
Proof.
  intros Hn. unfold Phase.mostRecent.
  rewrite !length_app, length_drop. simpl.
  destruct (Nat.le_gt_cases (length l) n) as [Hle|Hgt].
  - replace (length l - n)%nat with 0%nat by lia.
    rewrite Nat.sub_0_r. reflexivity.
  - rewrite !drop_app_le by (rewrite ?length_drop; lia).
    rewrite drop_drop. do 2 f_equal. lia.
Qed.

Lemma mostRecent_length {A} (n : nat) (l : list A) :
  (length (Phase.mostRecent n l) <= n)%nat.
Proof. unfold Phase.mostRecent. rewrite length_drop. lia. Qed.

Lemma mostRecent_all {A} (n : nat) (l : list A) :
  (length l <= n)%nat -> Phase.mostRecent n l = l.
Proof.
  intros H. unfold Phase.mostRecent.
  replace (length l - n)%nat with 0%nat by lia. reflexivity.
Qed.

Lemma adjustPosition_trail_mostRecent (b : Body.t) (k : Z) :
  Spec.wholeCapacity b k -> 0 < k ->
  Z.of_nat (length (Body.trail b)) <= k ->
  Body.trail (Body.adjustPosition b)
  = Phase.mostRecent (Z.to_nat k)
      (Body.trail b ++ [Position.exportCoordinates (Body.position b)]).
Proof.
  intros Hk Hcap Hlen.
  rewrite (adjustPosition_advanceUpTo b k Hk)
    by (destruct Hk as [Hk _]; safe_int).
  destruct b as [m p v cap tr ci tt].
  unfold Spec.advanceUpTo, Spec.advanceWith. body_simpl.
  destruct (Z.ltb_spec 0 k); [|lia].
  destruct (Z.leb_spec (Z.of_nat (length tr)) k); [|lia].
  cbn [andb].
  destruct (Z.ltb_spec k
              (Z.of_nat (length (tr ++ [[Position.x p; Position.y p]]))));
    [reflexivity|].
  symmetry. apply mostRecent_all. lia.
Qed.

Lemma attracted_frame {A} (f : Body.t -> A) (bs : list Body.t) i b :
  (forall b b', f (Body.adjustVector b b') = f b) ->
  f (Phase.attracted bs i b) = f b.
Proof.
  intros Hf. unfold Phase.attracted. generalize (delete i bs) as others.
  intros others. revert b.
  induction others as [|o others IH]; intros b; simpl; [reflexivity|].
  rewrite IH. apply Hf.
Qed.

Lemma updateSimulation_lookup (c : BodyCollection.t) i :
  bodies (updateSimulation c) !! i
  = (fun b => Body.adjustPosition (Phase.attracted (bodies c) i b))
      <$> bodies c !! i.
Proof.
  destruct c as [bs]. cbn [bodies]. unfold updateSimulation.
  rewrite updatePositions_map, updateVectors_attracted.
  rewrite list_lookup_fmap, list_lookup_imap.
  destruct (bs !! i); reflexivity.
Qed.

Lemma bodyAt_trailLength (c : BodyCollection.t) i n b0 bn :
  bodies c !! i = Some b0 -> Phase.bodyAt c i n = Some bn ->
  Body.trailLength bn = Body.trailLength b0.
Proof.
  unfold Phase.bodyAt. intros H0 Hn.
  pose proof (runSimulation_fixedPart n c) as Hfix.
  apply (f_equal (fun l => l !! i)) in Hfix.
  rewrite !list_lookup_fmap, H0, Hn in Hfix. simpl in Hfix.
  unfold Phase.fixedPart in Hfix. congruence.
Qed.

(** X3.  A body that records a trail of a whole-number capacity
    [cap > 0], and whose trail is not longer than [cap], holds after [n]
    steps the [cap] most recent entries of its former trail followed by
    the positions it left in these steps, oldest first. *)
Theorem trail_is_sliding_window :
  forall (c : BodyCollection.t) (i n : nat) (b0 bn : Body.t) (cap : Z),
    bodies c !! i = Some b0 ->
    Phase.bodyAt c i n = Some bn ->
    Spec.wholeCapacity b0 cap ->
    0 < cap ->
    Z.of_nat (length (Body.trail b0)) <= cap ->
    Body.trail bn
    = Phase.mostRecent (Z.to_nat cap)
        (Body.trail b0 ++ Phase.positionsLeft c i n).
Proof.
  intros c i n b0 bn cap H0 Hn Hwhole Hcap Hb0. revert bn Hn.
  induction n as [|n IH]; intros bn Hn.
  - unfold Phase.bodyAt in Hn. simpl in Hn.
    assert (bn = b0) by congruence. subst bn. simpl.
    rewrite app_nil_r, mostRecent_all; [reflexivity|]. lia.
  - unfold Phase.bodyAt in Hn.
    rewrite runSimulation_S_r, updateSimulation_lookup in Hn.
    destruct (bodies (runSimulation n c) !! i) as [b|] eqn:Hb;
      [|discriminate].
    simpl in Hn. injection Hn as <-.
    specialize (IH b Hb).
    pose proof (bodyAt_trailLength c i n b0 b H0 Hb) as Hcapb.
    set (b' := Phase.attracted (bodies (runSimulation n c)) i b).
    assert (Htr : Body.trail b' = Body.trail b)
      by (apply (attracted_frame Body.trail); reflexivity).
    assert (Hcp : Body.trailLength b' = Body.trailLength b)
      by (apply (attracted_frame Body.trailLength); reflexivity).
    assert (Hps : Body.position b' = Body.position b)
      by (apply (attracted_frame Body.position); reflexivity).
    rewrite (adjustPosition_trail_mostRecent b' cap).
    + rewrite Htr, Hps, IH. cbn [Phase.positionsLeft].
      fold (Phase.bodyAt c i n) in Hb. rewrite Hb.
      rewrite mostRecent_snoc by lia. rewrite app_assoc. reflexivity.
    + destruct Hwhole as [Hk Hc]. split; [exact Hk|]. congruence.
    + exact Hcap.
    + rewrite Htr, IH.
      pose proof (mostRecent_length (Z.to_nat cap)
                    (Body.trail b0 ++ Phase.positionsLeft c i n)).
      lia.
Qed.

Lemma trail_is_sliding_window_witness :
  exists bn,
    Phase.bodyAt Sample.trailing 1 3 = Some bn /\
    Body.trail bn
    = Phase.mostRecent (Z.to_nat 1)
        ([] ++ Phase.positionsLeft Sample.trailing 1 3).
Proof.
  eexists. split; [vm_compute; reflexivity|].
  apply (trail_is_sliding_window Sample.trailing 1 3
           (Body.mk 1 (Position.mk 10 0) (MotionVector.mk 0 0) 1 [] 0 2)).
  - reflexivity.
  - vm_compute. reflexivity.
  - split; [lia | reflexivity].
  - lia.
  - simpl. lia.
Defined.

(** ** Sequences of calls *)

Lemma attracted_keeps (P : Body.t -> Prop) (bs : list Body.t) i b :
  (forall b b', P b -> P (Body.adjustVector b b')) ->
  P b -> P (Phase.attracted bs i b).
Proof.
  intros HP. unfold Phase.attracted. generalize (delete i bs) as others.
  intros others. revert b.
  induction others as [|o others IH]; intros b Hb; simpl; auto.
Qed.

Lemma updateSimulation_Forall (P : Body.t -> Prop) (c : BodyCollection.t) :
  (forall b b', P b -> P (Body.adjustVector b b')) ->
  (forall b, P b -> P (Body.adjustPosition b)) ->
  Forall P (bodies c) -> Forall P (bodies (updateSimulation c)).
Proof.
  intros Hv Hp Hc. apply Forall_lookup_2. intros i b Hb.
  rewrite updateSimulation_lookup in Hb.
  destruct (bodies c !! i) as [b0|] eqn:H0; [|discriminate].
  simpl in Hb. injection Hb as <-.
  apply Hp, attracted_keeps; [exact Hv|].
  exact (Forall_lookup_1 _ _ _ _ Hc H0).
Qed.

Lemma splice_rest_Forall {A} (P : A -> Prop) (a : list A) start count :
  Forall P a -> Forall P (snd (splice a start count)).
Proof.
  intros Ha. unfold splice. cbn [snd].
  apply Forall_app. split; [apply Forall_take | apply Forall_drop]; exact Ha.
Qed.

Lemma splice_rest_length {A} (a : list A) start count :
  (length (snd (splice a start count)) <= length a)%nat.
Proof.
  unfold splice. cbn [snd]. rewrite length_app, length_take, length_drop.
  lia.
Qed.

Lemma removeBody_rest (index : Z) (c : BodyCollection.t) :
  bodies (snd (removeBody index c)) = snd (splice (bodies c) index 1).
Proof.
  unfold removeBody. destruct (splice (bodies c) index 1). reflexivity.
Qed.

Lemma onBody_Forall (P : Body.t -> Prop) i method (c : BodyCollection.t) :
  (forall b, P b -> P (method b)) ->
  Forall P (bodies c) -> Forall P (bodies (Driver.onBody i method c)).
Proof.
  intros Hm Hc. unfold Driver.onBody.
  destruct (bodies c !! i) as [b|] eqn:Hb; [|exact Hc].
  cbn [bodies]. apply Forall_insert; [exact Hc|].
  apply Hm. exact (Forall_lookup_1 _ _ _ _ Hc Hb).
Qed.

Lemma onBody_length i method (c : BodyCollection.t) :
  length (bodies (Driver.onBody i method c)) = length (bodies c).
Proof.
  unfold Driver.onBody. destruct (bodies c !! i); [|reflexivity].
  cbn [bodies]. apply length_insert.
Qed.

Section CallsKeep.
Variable P : Body.t -> Prop.
Variable created : Driver.call -> Prop.
Hypothesis P_new :
  forall draw mass p m,
    (created (Driver.AddBodyCustom draw mass
                (Position.x p) (Position.y p)
                (MotionVector.x m) (MotionVector.y m))) ->
    P (Body.new draw mass p m).
Hypothesis created_addBody :
  forall draw posx posy,
    created (Driver.AddBody draw posx posy) ->
    created (Driver.AddBodyCustom draw 1 posx posy 0 0).
Hypothesis P_adjustVector : forall b b', P b -> P (Body.adjustVector b b').
Hypothesis P_adjustPosition : forall b, P b -> P (Body.adjustPosition b).
Hypothesis P_setTrailLength :
  forall n b, P b -> P (snd (Body.setTrailLength n b)).
Hypothesis P_setColor :
  forall i k b, created (Driver.SetColor i k) ->
                P b -> P (snd (Body.setColor k b)).
Hypothesis P_setTrailThickness :
  forall px b, P b -> P (snd (Body.setTrailThickness px b)).

Lemma addBodyCustom_Forall draw mass posx posy momx momy c :
  created (Driver.AddBodyCustom draw mass posx posy momx momy) ->
  Forall P (bodies c) ->
  Forall P (bodies (snd (addBodyCustom draw mass posx posy momx momy c))).
Proof.
  intros Hk Hc. unfold addBodyCustom.
  destruct (Z.of_nat (length (bodies c)) >=? MAX_BODIES); [exact Hc|].
  cbn [snd bodies]. unfold push. apply Forall_app. split; [exact Hc|].
  repeat constructor.
  apply (P_new draw mass (Position.mk posx posy) (MotionVector.mk momx momy)).
  exact Hk.
Qed.

Lemma perform_Forall k c :
  created k -> Forall P (bodies c) -> Forall P (bodies (Driver.perform k c)).
Proof.
  intros Hk Hc. destruct k; cbn [Driver.perform].
  - unfold addBody. apply addBodyCustom_Forall; auto.
  - apply addBodyCustom_Forall; auto.
  - rewrite removeBody_rest. apply splice_rest_Forall, Hc.
  - apply updateSimulation_Forall; auto.
  - apply onBody_Forall; auto.
  - apply onBody_Forall; [|exact Hc]. intros b. apply (P_setColor i), Hk.
  - apply onBody_Forall; auto.
Qed.

Lemma performAll_Forall ks : forall c,
  Forall created ks -> Forall P (bodies c) ->
  Forall P (bodies (Driver.performAll ks c)).
Proof.
  unfold Driver.performAll.
  induction ks as [|k ks IH]; intros c Hks Hc; simpl; [exact Hc|].
  apply Forall_cons_1 in Hks as [Hk Hks].
  apply IH; [exact Hks|]. apply perform_Forall; assumption.
Qed.

End CallsKeep.

Lemma perform_length k (c : BodyCollection.t) :
  Z.of_nat (length (bodies c)) <= MAX_BODIES ->
  Z.of_nat (length (bodies (Driver.perform k c))) <= MAX_BODIES.
Proof.
  assert (Hadd : forall draw mass posx posy momx momy,
             Z.of_nat (length (bodies c)) <= MAX_BODIES ->
             Z.of_nat (length (bodies (snd (addBodyCustom draw mass posx posy
                                              momx momy c)))) <= MAX_BODIES).
  { intros draw mass posx posy momx momy Hc. unfold addBodyCustom.
    destruct (Z.geb_spec (Z.of_nat (length (bodies c))) MAX_BODIES);
      [exact Hc|].
    cbn [snd bodies]. unfold push. rewrite length_app. simpl. lia. }
  intros Hc. destruct k; cbn [Driver.perform].
  - apply Hadd, Hc.
  - apply Hadd, Hc.
  - rewrite removeBody_rest.
    pose proof (splice_rest_length (bodies c) index 1). lia.
  - unfold updateSimulation.
    rewrite updatePositions_map, length_map, updateVectors_length. exact Hc.
  - rewrite onBody_length. exact Hc.
  - rewrite onBody_length. exact Hc.
  - rewrite onBody_length. exact Hc.
Qed.

Lemma spliceCount_rest_Forall {A} (P : A -> Prop) (a : list A) start count :
  Forall P a -> Forall P (snd (spliceCount a start count)).
Proof.
  intros Ha. unfold spliceCount.
  destruct (ToIntegerOrInfinity count); apply splice_rest_Forall, Ha.
Qed.

Lemma spliceCount_rest_length {A} (a : list A) start count :
  (length (snd (spliceCount a start count)) <= length a)%nat.
Proof.
  unfold spliceCount.
  destruct (ToIntegerOrInfinity count); apply splice_rest_length.
Qed.

(** The trail after [adjustPosition], whatever the capacity: the former
    trail, with the position appended if the first guard lets it, and
    then possibly spliced. *)
Lemma adjustPosition_trail_cases (b : Body.t) :
  let appended :=
    if negb (Body.trailLength b =? 0)%float
       && (number (length (Body.trail b)) <=? Body.trailLength b)%float
    then Body.trail b ++ [Position.exportCoordinates (Body.position b)]
    else Body.trail b in
  Body.trail (Body.adjustPosition b) = appended \/
  exists count,
    Body.trail (Body.adjustPosition b) = snd (spliceCount appended 0 count).
Proof.
  destruct b as [m p v cap tr ci tt]. unfold Body.adjustPosition.
  body_simpl.
  destruct (negb (cap =? 0)%float && (number (length tr) <=? cap)%float);
    body_simpl;
    match goal with
    | |- context [(cap <? ?n)%float] => destruct (cap <? n)%float
    end; body_simpl; eauto.
Qed.

Lemma adjustPosition_trail_Forall (P : list float -> Prop) (b : Body.t) :
  Forall P (Body.trail b) ->
  P (Position.exportCoordinates (Body.position b)) ->
  Forall P (Body.trail (Body.adjustPosition b)).
Proof.
  intros Htr Hp.
  assert (Happ : Forall P
            (Body.trail b ++ [Position.exportCoordinates (Body.position b)])).
  { apply Forall_app. split; [exact Htr|]. repeat constructor. exact Hp. }
  destruct (adjustPosition_trail_cases b) as [-> | [count ->]];
    try apply spliceCount_rest_Forall;
    match goal with
    | |- context [if ?c then _ else _] => destruct c
    end; assumption.
Qed.

(** A trail of at most 100000 entries stays one under any capacity that
    is not above 100000: a trail of 100000 entries takes one more only
    when the capacity is exactly 100000, and is then trimmed. *)
Lemma adjustPosition_trail_le_100000 (b : Body.t) :
  (100000 <? Body.trailLength b)%float = false ->
  Z.of_nat (length (Body.trail b)) <= 100000 ->
  Z.of_nat (length (Body.trail (Body.adjustPosition b))) <= 100000.
Proof.
  intros Hhi Hlen.
  pose proof (adjustPosition_trail_cases b) as Hcases. cbv zeta in Hcases.
  destruct (Z.eq_dec (Z.of_nat (length (Body.trail b))) 100000) as [Heq|Hne];
    [destruct (number (length (Body.trail b)) <=? Body.trailLength b)%float
       eqn:Hle|].
  - apply adjustPosition_trail_length; [|safe_int].
    split; [lia|]. apply float_leb_antisym_whole.
    + split; [lia | reflexivity].
    + unfold number in Hle. rewrite Heq in Hle. exact Hle.
    + exact Hhi.
  - rewrite andb_false_r in Hcases.
    destruct Hcases as [-> | [count ->]]; [exact Hlen|].
    pose proof (spliceCount_rest_length (Body.trail b) 0 count). lia.
  - assert (Happ : Z.of_nat
              (length (if negb (Body.trailLength b =? 0)%float
                          && (number (length (Body.trail b))
                              <=? Body.trailLength b)%float
                       then Body.trail b
                            ++ [Position.exportCoordinates (Body.position b)]
                       else Body.trail b)) <= 100000).
    { destruct (negb (Body.trailLength b =? 0)%float
                && (number (length (Body.trail b))
                    <=? Body.trailLength b)%float);
        rewrite ?length_app; simpl; lia. }
    destruct Hcases as [-> | [count ->]]; [exact Happ|].
    match goal with
    | |- Z.of_nat (length (snd (spliceCount ?a 0 count))) <= _ =>
        pose proof (spliceCount_rest_length a 0 count)
    end. lia.
Qed.

Lemma adjustPosition_withinBounds (b : Body.t) :
  Driver.bodyWithinBounds b -> Driver.bodyWithinBounds (Body.adjustPosition b).
Proof.
  intros (Hlo & Hhi & Hlen & Hpairs). unfold Driver.bodyWithinBounds.
  rewrite adjustPosition_trailLength.
  split; [exact Hlo|]. split; [exact Hhi|]. split.
  - apply adjustPosition_trail_le_100000; assumption.
  - apply adjustPosition_trail_Forall; [exact Hpairs | reflexivity].
Qed.

Lemma setTrailLength_withinBounds n (b : Body.t) :
  Driver.bodyWithinBounds b ->
  Driver.bodyWithinBounds (snd (Body.setTrailLength n b)).
Proof.
  intros (Hlo & Hhi & Hlen & Hpairs). unfold Body.setTrailLength.
  destruct (n <? 0)%float eqn:Hn0, (100000 <? n)%float eqn:Hn1;
    cbn [orb snd]; unfold Driver.bodyWithinBounds; body_simpl;
    repeat split; assumption.
Qed.

Lemma setColor_snd k (b : Body.t) :
  snd (Body.setColor k b) = b \/
  snd (Body.setColor k b) = Body.set_colorIndex k b.
Proof.
  unfold Body.setColor.
  destruct ((k <? 0)%float || (number (length Body.colorOptions) <=? k)%float);
    cbn [snd]; auto.
Qed.

(** The guard of [setColor] on a whole number. *)
Lemma setColor_guard_whole (j : Z) :
  - 2 ^ 53 < j < 2 ^ 53 ->
  (ofZ j <? 0)%float || (number (length Body.colorOptions) <=? ofZ j)%float
  = (j <? 0) || (15 <=? j).
Proof.
  intros Hj. change 0%float with (ofZ 0).
  change (number (length Body.colorOptions)) with (ofZ 15).
  rewrite (proj1 (ofZ_ltb_signed j 0 Hj ltac:(lia))).
  rewrite (proj2 (ofZ_leb_signed j 15 Hj ltac:(lia))). reflexivity.
Qed.

Lemma setTrailThickness_snd px (b : Body.t) :
  snd (Body.setTrailThickness px b) = b \/
  snd (Body.setTrailThickness px b) = Body.set_trailThickness px b.
Proof.
  unfold Body.setTrailThickness.
  destruct ((px <=? 0)%float || (Body.radius b <? px)%float); cbn [snd]; auto.
Qed.

Lemma color_whole (b : Body.t) (j : Z) :
  Body.colorIndex b = ofZ j -> 0 <= j < 2 ^ 53 ->
  Body.color b = Body.colorOptions !! Z.to_nat j.
Proof.
  intros Hb Hj. unfold Body.color, get.
  rewrite Hb, arrayIndex_ofZ by exact Hj. reflexivity.
Qed.

Lemma hasColor_whole (b : Body.t) (j : Z) :
  Body.colorIndex b = ofZ j ->
  0 <= j < Z.of_nat (length Body.colorOptions) ->
  Driver.hasColor b.
Proof.
  intros Hb Hj. unfold Driver.hasColor.
  change (Z.of_nat (length Body.colorOptions)) with 15 in Hj.
  rewrite (color_whole b j Hb) by lia.
  destruct (lookup_lt_is_Some_2 Body.colorOptions (Z.to_nat j))
    as [css Hcss]; [simpl; lia|].
  exists css. split; [exact Hcss|].
  apply list_elem_of_lookup. eauto.
Qed.

Lemma hasColor_colorIndex (b b' : Body.t) :
  Body.colorIndex b' = Body.colorIndex b ->
  Driver.hasColor b -> Driver.hasColor b'.
Proof. unfold Driver.hasColor, Body.color. intros ->. exact (fun H => H). Qed.

(** ** Bounds that no sequence of calls breaks *)

(** X4.  Whatever calls are made on a collection within the bounds (in
    particular on a new, empty one) -- adding and removing bodies,
    simulation steps, the three setters on any of its bodies with any
    number as argument, also calls that throw -- the collection never
    holds more than 10 bodies, and every body keeps a trail capacity
    that is neither below 0 nor above 100000, a trail of at most 100000
    entries, and trail entries that are pairs of coordinates.  The
    capacity need not be in [0, 100000]: [setTrailLength(NaN)] succeeds
    and leaves the capacity NaN. *)
Theorem calls_stay_within_bounds :
  (forall (ks : list Driver.call) (c : BodyCollection.t),
     Driver.withinBounds c -> Driver.withinBounds (Driver.performAll ks c)) /\
  (forall ks : list Driver.call,
     Driver.withinBounds (Driver.performAll ks (mk []))) /\
  map Body.trailLength
    (bodies
       (Driver.performAll
          [Driver.AddBody 0 0 0; Driver.SetTrailLength 0 nan] (mk [])))
  = [nan].
Proof.
  assert (H : forall ks c,
             Driver.withinBounds c ->
             Driver.withinBounds (Driver.performAll ks c)).
  { intros ks c [Hlen Hbodies]. split.
    - clear Hbodies. revert c Hlen. unfold Driver.performAll.
      induction ks as [|k ks IH]; intros c Hlen; simpl; [exact Hlen|].
      apply IH, perform_length, Hlen.
    - apply (performAll_Forall Driver.bodyWithinBounds (fun _ => True)).
      + intros draw mass p m _. unfold Driver.bodyWithinBounds. simpl.
        repeat split; try reflexivity; try lia. constructor.
      + tauto.
      + intros [] b' Hb. exact Hb.
      + apply adjustPosition_withinBounds.
      + apply setTrailLength_withinBounds.
      + intros _ k b _ Hb. destruct (setColor_snd k b) as [->| ->];
          [exact Hb|]. destruct b. exact Hb.
      + intros px b Hb. destruct (setTrailThickness_snd px b) as [->| ->];
          [exact Hb|]. destruct b. exact Hb.
      + apply Forall_forall. tauto.
      + exact Hbodies. }
  split; [exact H|]. split; [|vm_compute; reflexivity].
  intros ks. apply H. split; simpl; [|constructor].
  unfold MAX_BODIES. lia.
Qed.

Lemma calls_stay_within_bounds_witness :
  Driver.withinBounds
    (Driver.performAll
       [ Driver.SetTrailLength 1 100000; Driver.UpdateSimulation;
         Driver.SetTrailLength 0 2.5; Driver.SetTrailLength 1 nan;
         Driver.SetColor 0 1.5; Driver.UpdateSimulation;
         Driver.RemoveBody (-1); Driver.AddBody 3 1 1 ]
       Sample.trailing).
Proof.
  apply (proj1 calls_stay_within_bounds). split.
  - unfold MAX_BODIES. simpl. lia.
  - repeat constructor; simpl; lia.
Defined.

(** X5.  When every colour index that a constructor draws is one of the 15
    colour options and every argument of [setColor] is a whole number,
    the colour getter of every body returns one of the colour options
    after any sequence of calls: [setColor] refuses every whole number
    outside 0..14 and nothing else writes the colour index. *)
Theorem colour_stays_defined :
  forall (ks : list Driver.call) (c : BodyCollection.t),
    Forall Driver.wholeIndices ks ->
    Forall Driver.hasColor (bodies c) ->
    Forall Driver.hasColor (bodies (Driver.performAll ks c)).
Proof.
  intros ks c Hks Hc.
  apply (performAll_Forall Driver.hasColor Driver.wholeIndices);
    [| | | | | | |exact Hks|exact Hc].
  - intros draw mass p m (j & Hj & ->).
    apply (hasColor_whole _ j); [reflexivity | exact Hj].
  - intros draw posx posy Hdraw. exact Hdraw.
  - intros b b'. apply hasColor_colorIndex. destruct b. reflexivity.
  - intros b. apply hasColor_colorIndex.
    rewrite adjustPosition_frame. reflexivity.
  - intros n b. apply hasColor_colorIndex. unfold Body.setTrailLength.
    destruct ((n <? 0)%float || (100000 <? n)%float); [reflexivity|].
    destruct b. reflexivity.
  - intros i k b (j & Hj & ->) Hb. unfold Body.setColor.
    rewrite (setColor_guard_whole j Hj).
    destruct (Z.ltb_spec j 0), (Z.leb_spec 15 j); cbn [orb snd];
      try exact Hb.
    apply (hasColor_whole _ j); [destruct b; reflexivity|].
    change (Z.of_nat (length Body.colorOptions)) with 15. lia.
  - intros px b. apply hasColor_colorIndex.
    destruct (setTrailThickness_snd px b) as [->| ->]; [reflexivity|].
    destruct b. reflexivity.
Qed.

Lemma colour_stays_defined_witness :
  Forall Driver.hasColor
    (bodies
       (Driver.performAll
          [ Driver.AddBody 14 1 1; Driver.SetColor 0 15; Driver.SetColor 1 9;
            Driver.SetTrailLength 0 2.5; Driver.UpdateSimulation ]
          Sample.trailing)).
Proof.
  apply colour_stays_defined.
  - repeat constructor.
    + exists 14. split; [simpl; lia | reflexivity].
    + exists 15. split; [lia | reflexivity].
    + exists 9. split; [lia | reflexivity].
  - repeat constructor; apply (hasColor_whole _ 0);
      try reflexivity; simpl; lia.
Defined.

(** ** Adding, then removing *)

Lemma splice_last {A} (l : list A) (x : A) (start : Z) :
  start = Z.of_nat (length l) \/ start = -1 ->
  splice (l ++ [x]) start 1 = ([x], l).
Proof.
  intros Hstart. unfold splice. rewrite length_app. simpl length.
  assert (Hs : (if start <? 0
                then Z.max (Z.of_nat (length l + 1) + start) 0
                else Z.min start (Z.of_nat (length l + 1)))
               = Z.of_nat (length l)).
  { destruct Hstart as [-> | ->].
    - destruct (Z.ltb_spec (Z.of_nat (length l)) 0); lia.
    - change (-1 <? 0) with true. cbv iota. lia. }
  rewrite Hs.
  replace (Z.min (Z.max 1 0) (Z.of_nat (length l + 1) - Z.of_nat (length l)))
    with 1 by lia.
  rewrite Nat2Z.id. change (Z.to_nat 1) with 1%nat.
  rewrite drop_app_length, take_app_length.
  rewrite drop_ge by (rewrite length_app; simpl; lia).
  rewrite app_nil_r. reflexivity.
Qed.

(** X6.  On a collection of fewer than 10 bodies, removing the body at
    the index of the former length, or at index -1, right after
    [addBodyCustom] returns the very body that was added and gives back
    the collection as it was before. *)
Theorem add_then_remove_last :
  forall (c : BodyCollection.t) (draw mass posx posy momx momy : float),
    (length (bodies c) < 10)%nat ->
    let added := addBodyCustom draw mass posx posy momx momy c in
    fst added
    = Return (Body.new draw mass (Position.mk posx posy)
                (MotionVector.mk momx momy)) /\
    removeBody (Z.of_nat (length (bodies c))) (snd added)
    = (Return (Some (Body.new draw mass (Position.mk posx posy)
                       (MotionVector.mk momx momy))), c) /\
    removeBody (-1) (snd added)
    = (Return (Some (Body.new draw mass (Position.mk posx posy)
                       (MotionVector.mk momx momy))), c).
Proof.
  intros [bs] draw mass posx posy momx momy Hlen added. subst added.
  cbn [bodies] in *. unfold addBodyCustom, MAX_BODIES. cbn [bodies].
  destruct (Z.geb_spec (Z.of_nat (length bs)) 10); [lia|].
  cbn [fst snd]. unfold removeBody, push. cbn [bodies].
  rewrite !splice_last by auto. repeat split.
Qed.

Lemma add_then_remove_last_witness :
  removeBody (-1) (snd (addBodyCustom 3 1 5 5 0 0 Sample.trailing))
  = (Return (Some (Body.new 3 1 (Position.mk 5 5) (MotionVector.mk 0 0))),
     Sample.trailing).
Proof.
  apply (proj2 (proj2 (add_then_remove_last Sample.trailing 3 1 5 5 0 0
                         ltac:(simpl; lia)))).
Defined.

(** ** The colour setter *)

(** X7.  [setColor i] throws "Invalid color index" and leaves the body
    as it is when [i] is negative or at least 15.  Otherwise it returns
    [i] and the colour getter then gives the colour option of index [i];
    nothing but the colour index changes.  This holds for every number
    [i], with the comparisons and the property access of binary64 (an
    [i] that is not an array index, as 1.5 or NaN, passes both
    comparisons and the getter gives [undefined]), and in particular for
    every whole number [i]. *)
Theorem setColor_validation :
  forall b : Body.t,
    (forall i : float,
       ((i <? 0)%float = true \/ (15 <=? i)%float = true ->
        Body.setColor i b = (Throw "Invalid color index", b)) /\
       ((i <? 0)%float = false -> (15 <=? i)%float = false ->
        fst (Body.setColor i b) = Return i /\
        Body.color (snd (Body.setColor i b)) = get Body.colorOptions i /\
        snd (Body.setColor i b)
        = Body.mk (Body.mass b) (Body.position b) (Body.momentum b)
            (Body.trailLength b) (Body.trail b) i (Body.trailThickness b))) /\
    (forall i : Z,
       - 2 ^ 53 < i < 2 ^ 53 ->
       (i < 0 \/ 15 <= i ->
        Body.setColor (ofZ i) b = (Throw "Invalid color index", b)) /\
       (0 <= i < 15 ->
        fst (Body.setColor (ofZ i) b) = Return (ofZ i) /\
        Body.color (snd (Body.setColor (ofZ i) b))
        = Body.colorOptions !! Z.to_nat i /\
        Driver.hasColor (snd (Body.setColor (ofZ i) b)) /\
        snd (Body.setColor (ofZ i) b)
        = Body.mk (Body.mass b) (Body.position b) (Body.momentum b)
            (Body.trailLength b) (Body.trail b) (ofZ i)
            (Body.trailThickness b))).
Proof.
  intros b. split.
  - intros i. unfold Body.setColor.
    change (number (length Body.colorOptions)) with 15%float.
    split.
    + intros [-> | ->]; [reflexivity|]. rewrite orb_true_r. reflexivity.
    + intros -> ->. cbn [orb fst snd]. repeat split.
  - intros i Hi. unfold Body.setColor. rewrite (setColor_guard_whole i Hi).
    split; intros H.
    + destruct (Z.ltb_spec i 0), (Z.leb_spec 15 i); cbn [orb]; auto; lia.
    + destruct (Z.ltb_spec i 0), (Z.leb_spec 15 i); try lia.
      cbn [orb fst snd]. split; [reflexivity|].
      split; [|split; [|reflexivity]].
      * apply color_whole; [destruct b; reflexivity | lia].
      * apply (hasColor_whole _ i); [destruct b; reflexivity|].
        change (Z.of_nat (length Body.colorOptions)) with 15. lia.
Qed.

Lemma setColor_validation_witness :
  Body.setColor (ofZ 15) Sample.fullTrail
  = (Throw "Invalid color index", Sample.fullTrail) /\
  Body.color (snd (Body.setColor (ofZ 14) Sample.fullTrail))
  = Body.colorOptions !! Z.to_nat 14.
Proof.
  split.
  - apply (proj1 (proj2 (setColor_validation Sample.fullTrail) 15
                    ltac:(lia))). lia.
  - apply (proj2 (proj2 (setColor_validation Sample.fullTrail) 14
                    ltac:(lia))). lia.
Defined.

(** ** The first engine *)

Lemma ofBody_adjustVector (a b : Body.t) :
  Legacy.adjustVector (Legacy.ofBody a) (Legacy.ofBody b)
  = Legacy.ofBody (Body.adjustVector a b).
Proof. destruct a, b. reflexivity. Qed.

Lemma ofBody_adjustPosition (b : Body.t) :
  Legacy.adjustPosition (Legacy.ofBody b)
  = Legacy.ofBody (Body.adjustPosition b).
Proof. rewrite adjustPosition_frame. destruct b. reflexivity. Qed.

Lemma ofBody_adjustVectorAt i j (bs : list Body.t) :
  Legacy.adjustVectorAt i j (map Legacy.ofBody bs)
  = map Legacy.ofBody (adjustVectorAt i j bs).
Proof.
  unfold Legacy.adjustVectorAt, adjustVectorAt. rewrite !list_lookup_fmap.
  destruct (bs !! i) as [bi|], (bs !! j) as [bj|]; simpl; try reflexivity.
  rewrite ofBody_adjustVector, list_fmap_insert. reflexivity.
Qed.

Lemma ofBody_adjustPositionAt i (bs : list Body.t) :
  Legacy.adjustPositionAt i (map Legacy.ofBody bs)
  = map Legacy.ofBody (adjustPositionAt i bs).
Proof.
  unfold Legacy.adjustPositionAt, adjustPositionAt. rewrite list_lookup_fmap.
  destruct (bs !! i) as [bi|]; simpl; try reflexivity.
  rewrite ofBody_adjustPosition, list_fmap_insert. reflexivity.
Qed.

Lemma updateValues_updateSimulation (bs : list Body.t) (cs : list string) :
  Legacy.updateValues (Legacy.mkGlobals (map Legacy.ofBody bs) cs)
  = Legacy.mkGlobals
      (map Legacy.ofBody (bodies (updateSimulation (mk bs)))) cs.
Proof.
  unfold Legacy.updateValues, updateSimulation, updatePositions,
    updateVectors.
  cbn [Legacy.bodies Legacy.colors bodies]. f_equal.
  rewrite length_map.
  rewrite (for_range_commute (map Legacy.ofBody)
             (fun i bs =>
                for_range (length bs)
                  (fun j bs =>
                     if decide (i = j) then bs else adjustVectorAt i j bs)
                  bs)).
  - rewrite length_map. apply for_range_commute.
    intros i s. apply ofBody_adjustPositionAt.
  - intros i s. rewrite length_map. apply for_range_commute.
    intros j s'. destruct (decide (i = j)); [reflexivity|].
    apply ofBody_adjustVectorAt.
Qed.

(** X8.  The class-based engine refines the script it grew out of:
    forgetting trails, colours and thicknesses, [n] steps of
    [updateSimulation] leave the bodies exactly where [loopUpdate(n)] of
    the script leaves them, with the same momenta; and the script never
    touches its array of colours. *)
Theorem engine_refines_first_script :
  forall (n : nat) (c : BodyCollection.t) (cs : list string),
    Legacy.loopUpdate n (Legacy.mkGlobals (map Legacy.ofBody (bodies c)) cs)
    = Legacy.mkGlobals
        (map Legacy.ofBody (bodies (runSimulation n c))) cs.
Proof.
  intros n c cs. induction n as [|n IH].
  - reflexivity.
  - unfold Legacy.loopUpdate in *. rewrite for_range_S, IH.
    rewrite runSimulation_S_r. destruct (runSimulation n c) as [bs].
    apply updateValues_updateSimulation.
Qed.

(** ** Collections of fewer than two bodies *)

Lemma iter_adjustPosition_momentum n (b : Body.t) :
  Body.momentum (Nat.iter n Body.adjustPosition b) = Body.momentum b.
Proof.
  induction n as [|n IH]; [reflexivity|].
  rewrite Nat.iter_succ, adjustPosition_frame. exact IH.
Qed.

(** X9.  A step does nothing to the empty collection.  A body alone in
    its collection is pulled by nothing: [n] steps are [n] displacements
    and its momentum is the same after any number of steps. *)
Theorem lone_body_moves_uniformly :
  forall (n : nat) (b : Body.t),
    runSimulation n (mk []) = mk [] /\
    runSimulation n (mk [b]) = mk [Nat.iter n Body.adjustPosition b] /\
    Body.momentum (Nat.iter n Body.adjustPosition b) = Body.momentum b.
Proof.
  intros n b. split; [|split].
  - induction n as [|n IH]; [reflexivity | exact IH].
  - induction n as [|n IH]; [reflexivity|].
    rewrite runSimulation_S_r, IH. reflexivity.
  - apply iter_adjustPosition_momentum.
Qed.

(** ** What the centre of mass reads *)

Lemma comLoop_place (bs1 bs2 : list Body.t) :
  map Phase.place bs1 = map Phase.place bs2 -> comLoop bs1 = comLoop bs2.
Proof.
  intros H. rewrite !comLoop_sums.
  assert (Hx : forall bs,
             map (fun b => Body.x b * Body.mass b)%float bs
             = map (fun '(p, m) => Position.x p * m)%float
                 (map Phase.place bs))
    by (intros bs; rewrite map_map; reflexivity).
  assert (Hy : forall bs,
             map (fun b => Body.y b * Body.mass b)%float bs
             = map (fun '(p, m) => Position.y p * m)%float
                 (map Phase.place bs))
    by (intros bs; rewrite map_map; reflexivity).
  assert (Hm : forall bs,
             map Body.mass bs = map snd (map Phase.place bs))
    by (intros bs; rewrite map_map; reflexivity).
  rewrite !Hx, !Hy, !Hm, H. reflexivity.
Qed.

(** X10.  The centre of mass reads the masses and the positions only:
    collections that agree on them have the same centre of mass.  So the
    accumulation phase of a step, which changes momenta only, leaves the
    centre of mass where it is. *)
Theorem centerOfMass_reads_places :
  (forall c1 c2 : BodyCollection.t,
     map Phase.place (bodies c1) = map Phase.place (bodies c2) ->
     centerOfMass c1 = centerOfMass c2) /\
  (forall c : BodyCollection.t,
     centerOfMass (updateVectors c) = centerOfMass c).
Proof.
  assert (H : forall c1 c2 : BodyCollection.t,
             map Phase.place (bodies c1) = map Phase.place (bodies c2) ->
             centerOfMass c1 = centerOfMass c2).
  { intros c1 c2 Hp. unfold centerOfMass.
    rewrite (comLoop_place _ _ Hp). reflexivity. }
  split; [exact H|]. intros c. apply H.
  apply updateVectors_frame. reflexivity.
Qed.

Lemma centerOfMass_reads_places_witness :
  centerOfMass Sample.trailing = centerOfMass Sample.trailingRecoloured.
Proof.
  apply (proj1 centerOfMass_reads_places). reflexivity.
Defined.

(** ** Binary64 arithmetic, from its specification

    Facts that hold for every number, not for given ones, are read off
    the Standard Library's specification of the primitive operations
    ([mul_spec], [sub_spec], ... over [spec_float]). *)

Section SpecFloatFacts.
Variables prec emax : Z.

Lemma binary_round_aux_negb s m e l :
  binary_round_aux prec emax (negb s) m e l
  = SFopp (binary_round_aux prec emax s m e l).
Proof.
  unfold binary_round_aux.
  destruct (shr_fexp prec emax m e l) as [mrs' e'].
  destruct (shr_fexp prec emax _ e' loc_Exact) as [mrs'' e''].
  destruct (shr_m mrs''); try reflexivity.
  destruct (Z.leb e'' (Z.sub emax prec)); reflexivity.
Qed.

Lemma binary_round_negb s m e :
  binary_round prec emax (negb s) m e = SFopp (binary_round prec emax s m e).
Proof.
  unfold binary_round.
  destruct (shl_align m e _) as [mz ez]. apply binary_round_aux_negb.
Qed.

Lemma SFmul_opp_self z :
  SFmul prec emax (SFopp z) (SFopp z) = SFmul prec emax z z.
Proof.
  destruct z as [s|s| |s m e]; simpl; try reflexivity;
    destruct s; reflexivity.
Qed.

Lemma binary_normalize_square_opp m e :
  SFmul prec emax (binary_normalize prec emax (- m) e false)
    (binary_normalize prec emax (- m) e false)
  = SFmul prec emax (binary_normalize prec emax m e false)
      (binary_normalize prec emax m e false).
Proof.
  destruct m as [|p|p]; simpl; [reflexivity| |].
  - change true with (negb false). rewrite binary_round_negb.
    apply SFmul_opp_self.
  - change true with (negb false). rewrite binary_round_negb.
    symmetry. apply SFmul_opp_self.
Qed.

Lemma SFsub_square_swap x y :
  SFmul prec emax (SFsub prec emax y x) (SFsub prec emax y x)
  = SFmul prec emax (SFsub prec emax x y) (SFsub prec emax x y).
Proof.
  destruct x as [sx|sx| |sx mx ex], y as [sy|sy| |sy my ey];
    try reflexivity;
    try (destruct sx, sy; reflexivity);
    try (destruct sx; reflexivity); try (destruct sy; reflexivity).
  cbn [SFsub]. rewrite (Z.min_comm ey ex).
  rewrite <- binary_normalize_square_opp. do 2 f_equal; lia.
Qed.

Lemma SFmul_comm x y : SFmul prec emax x y = SFmul prec emax y x.
Proof.
  destruct x as [sx|sx| |sx mx ex], y as [sy|sy| |sy my ey];
    try reflexivity; cbn [SFmul]; rewrite ?(xorb_comm sx sy); try reflexivity.
  rewrite (Pos.mul_comm mx my), (Z.add_comm ex ey). reflexivity.
Qed.
End SpecFloatFacts.

Lemma float_mul_comm (u v : float) : (u * v = v * u)%float.
Proof.
  apply Prim2SF_inj. rewrite !mul_spec. apply SFmul_comm.
Qed.

Lemma float_sub_square_swap (u v : float) :
  ((v - u) * (v - u) = (u - v) * (u - v))%float.
Proof.
  apply Prim2SF_inj. rewrite !mul_spec, !sub_spec. apply SFsub_square_swap.
Qed.

Section SpecFloatDegenerate.
Variables prec emax : Z.

Lemma SFsub_self x : Binary64.zeroOrNaN (SFsub prec emax x x).
Proof.
  destruct x as [s|s| |s m e]; cbn [SFsub].
  - left. destruct s; reflexivity.
  - right. destruct s; reflexivity.
  - right. reflexivity.
  - left. rewrite Z.sub_diag. reflexivity.
Qed.

Lemma SFmul_zeroOrNaN z :
  Binary64.zeroOrNaN z -> Binary64.zeroOrNaN (SFmul prec emax z z).
Proof. intros [-> | ->]; [left | right]; reflexivity. Qed.

Lemma SFadd_zeroOrNaN a b :
  Binary64.zeroOrNaN a -> Binary64.zeroOrNaN b ->
  Binary64.zeroOrNaN (SFadd prec emax a b).
Proof.
  intros [-> | ->] [-> | ->]; [left | right | right | right]; reflexivity.
Qed.

Lemma SFsqrt_zeroOrNaN z :
  Binary64.zeroOrNaN z -> Binary64.zeroOrNaN (SFsqrt prec emax z).
Proof. intros [-> | ->]; [left | right]; reflexivity. Qed.

Lemma SFdiv_by_zeroOrNaN p z :
  Binary64.zeroOrNaN z -> Binary64.infOrNaN (SFdiv prec emax p z).
Proof.
  intros [-> | ->].
  - destruct p as [s|s| |s m e]; cbn [SFdiv];
      [left | right | left | right]; eauto.
  - left. destruct p; reflexivity.
Qed.

Lemma SFmul_infOrNaN_finite c s m e :
  Binary64.infOrNaN c ->
  Binary64.infOrNaN (SFmul prec emax c (S754_finite s m e)).
Proof.
  intros [-> | [sc ->]]; [left | right]; cbn [SFmul]; eauto.
Qed.

Lemma SFmul_infOrNaN_zeroOrNaN c d :
  Binary64.infOrNaN c -> Binary64.zeroOrNaN d -> SFmul prec emax c d = S754_nan.
Proof. intros [-> | [sc ->]] [-> | ->]; reflexivity. Qed.

Lemma SFadd_nan_r x : SFadd prec emax x S754_nan = S754_nan.
Proof. destruct x; reflexivity. Qed.

End SpecFloatDegenerate.

Lemma float_nan_spec : Prim2SF nan = S754_nan.
Proof. reflexivity. Qed.

Lemma float_half_spec : exists m e, Prim2SF 0.5 = S754_finite false m e.
Proof. eexists. eexists. vm_compute. reflexivity. Qed.

Lemma float_add_nan_r (u : float) : (u + nan = nan)%float.
Proof.
  apply Prim2SF_inj. rewrite add_spec, float_nan_spec. apply SFadd_nan_r.
Qed.

Lemma float_add_nan_l (u : float) : (nan + u = nan)%float.
Proof.
  apply Prim2SF_inj. rewrite add_spec, float_nan_spec. reflexivity.
Qed.

Lemma float_ltb_nan_r (u : float) : (u <? nan)%float = false.
Proof.
  rewrite ltb_spec, float_nan_spec. unfold SFltb.
  destruct (Prim2SF u); reflexivity.
Qed.

Lemma float_sub_self (u : float) :
  Binary64.zeroOrNaN (Prim2SF (u - u)).
Proof. rewrite sub_spec. apply SFsub_self. Qed.

(** [w + c * d] where [c] is a quotient by the square of the distance
    [sqrt (dx * dx + dy * dy)], halved, and [dx], [dy] and [d] are [+0]
    or NaN. *)
Lemma float_pull_at_distance_zero (p w dx dy d : float) :
  Binary64.zeroOrNaN (Prim2SF dx) ->
  Binary64.zeroOrNaN (Prim2SF dy) ->
  Binary64.zeroOrNaN (Prim2SF d) ->
  let r := sqrt (dx * dx + dy * dy) in
  (w + p / (r * r) * 0.5 * d = nan)%float.
Proof.
  intros Hdx Hdy Hd r.
  assert (Hr : Binary64.zeroOrNaN (Prim2SF r)).
  { unfold r. rewrite sqrt_spec, add_spec, !mul_spec.
    apply SFsqrt_zeroOrNaN, SFadd_zeroOrNaN; apply SFmul_zeroOrNaN;
      assumption. }
  assert (Hc : Binary64.infOrNaN (Prim2SF (p / (r * r) * 0.5))).
  { destruct float_half_spec as (m & e & Hhalf).
    rewrite mul_spec, Hhalf, div_spec, mul_spec.
    apply SFmul_infOrNaN_finite, SFdiv_by_zeroOrNaN, SFmul_zeroOrNaN, Hr. }
  apply Prim2SF_inj. rewrite add_spec, mul_spec, float_nan_spec.
  unfold SF64mul. rewrite (SFmul_infOrNaN_zeroOrNaN _ _ _ _ Hc Hd).
  apply SFadd_nan_r.
Qed.

(** ** Distance and attraction are symmetric *)

(** X11.  The distance between two positions is the same in both
    directions, bit for bit, for all coordinates (also infinite or NaN
    ones): [a.distance(b)] and [b.distance(a)] return the same number.
    So does the gravitational coefficient of two bodies. *)
Theorem distance_symmetric :
  (forall p q : Position.t, Position.distance p q = Position.distance q p) /\
  (forall a b : Body.t, Body.gravCoeff a b = Body.gravCoeff b a).
Proof.
  assert (H : forall p q : Position.t,
             Position.distance p q = Position.distance q p).
  { intros [px py] [qx qy]. unfold Position.distance, Position.difference.
    cbn [Position.x Position.y].
    rewrite (float_sub_square_swap px qx), (float_sub_square_swap py qy).
    reflexivity. }
  split; [exact H|]. intros a b. unfold Body.gravCoeff.
  rewrite (H (Body.position a) (Body.position b)).
  rewrite (float_mul_comm (Body.mass a) (Body.mass b)). reflexivity.
Qed.

(** ** The thickness setter *)

(** X12.  [setTrailThickness] either throws and leaves the body as it
    is, or returns the thickness it was given and changes nothing but the
    trail thickness.  NaN passes its two comparisons: on every body
    [setTrailThickness(NaN)] returns, and the thickness is then NaN. *)
Theorem setTrailThickness_outcomes :
  forall (b : Body.t) (pixels : float),
    (Body.setTrailThickness pixels b = (Throw "Invalid trail thickness", b) \/
     Body.setTrailThickness pixels b
     = (Return pixels,
        Body.mk (Body.mass b) (Body.position b) (Body.momentum b)
          (Body.trailLength b) (Body.trail b) (Body.colorIndex b) pixels)) /\
    Body.setTrailThickness nan b
    = (Return nan,
       Body.mk (Body.mass b) (Body.position b) (Body.momentum b)
         (Body.trailLength b) (Body.trail b) (Body.colorIndex b) nan).
Proof.
  intros b pixels. unfold Body.setTrailThickness. split.
  - destruct ((pixels <=? 0)%float || (Body.radius b <? pixels)%float);
      [left | right]; reflexivity.
  - rewrite float_ltb_nan_r. reflexivity.
Qed.

(** ** Two bodies at the same position *)

Lemma adjustVector_coincident (a b : Body.t) :
  Body.position a = Body.position b ->
  Body.momentum (Body.adjustVector a b) = MotionVector.mk nan nan.
Proof.
  destruct a as [ma [ax ay] [vx vy] ? ? ? ?], b as [mb pb ? ? ? ? ?].
  cbn [Body.position]. intros <-.
  unfold Body.adjustVector, Body.gravCoeff, Position.distance,
    Position.difference, MotionVector.addCoords.
  body_simpl. cbn [Position.x Position.y MotionVector.x MotionVector.y].
  f_equal; apply float_pull_at_distance_zero; apply float_sub_self.
Qed.

Lemma adjustVector_nan_momentum (a b : Body.t) :
  Body.momentum a = MotionVector.mk nan nan ->
  Body.momentum (Body.adjustVector a b) = MotionVector.mk nan nan.
Proof.
  intros H. unfold Body.adjustVector, MotionVector.addCoords. body_simpl.
  rewrite H. cbn [MotionVector.x MotionVector.y].
  rewrite !float_add_nan_l. reflexivity.
Qed.

Lemma fold_adjustVector_nan_momentum (others : list Body.t) : forall b,
  Body.momentum b = MotionVector.mk nan nan ->
  Body.momentum (fold_left Body.adjustVector others b)
  = MotionVector.mk nan nan.
Proof.
  induction others as [|o others IH]; intros b Hb; simpl; [exact Hb|].
  apply IH, adjustVector_nan_momentum, Hb.
Qed.

Lemma fold_adjustVector_coincident (others : list Body.t) : forall b o,
  o ∈ others -> Body.position o = Body.position b ->
  Body.momentum (fold_left Body.adjustVector others b)
  = MotionVector.mk nan nan.
Proof.
  induction others as [|o' others IH]; intros b o Ho Hpos.
  - apply elem_of_nil in Ho. destruct Ho.
  - simpl. apply elem_of_cons in Ho as [<- | Ho].
    + apply fold_adjustVector_nan_momentum, adjustVector_coincident.
      symmetry. exact Hpos.
    + apply (IH _ o Ho). exact Hpos.
Qed.

Lemma adjustPosition_nan_momentum (b : Body.t) :
  Body.momentum b = MotionVector.mk nan nan ->
  Body.momentum (Body.adjustPosition b) = MotionVector.mk nan nan /\
  Body.position (Body.adjustPosition b) = Position.mk nan nan.
Proof.
  intros H. rewrite adjustPosition_frame. body_simpl.
  split; [exact H|]. rewrite H. cbn [MotionVector.x MotionVector.y].
  rewrite !float_add_nan_r. reflexivity.
Qed.

(** X13.  When two bodies of a collection are at the same position, one
    step turns the momentum and the position of each of them into
    (NaN, NaN), whatever their masses and momenta: the coefficient of the
    pair is a quotient by zero and it multiplies a zero difference. *)
Theorem coincident_bodies_become_NaN :
  forall (c : BodyCollection.t) (i j : nat) (bi bj : Body.t),
    i <> j ->
    bodies c !! i = Some bi ->
    bodies c !! j = Some bj ->
    Body.position bi = Body.position bj ->
    exists b',
      bodies (updateSimulation c) !! i = Some b' /\
      Body.momentum b' = MotionVector.mk nan nan /\
      Body.position b' = Position.mk nan nan.
Proof.
  intros c i j bi bj Hij Hi Hj Hpos.
  rewrite updateSimulation_lookup, Hi. cbn [fmap option_fmap option_map].
  eexists. split; [reflexivity|].
  apply adjustPosition_nan_momentum. unfold Phase.attracted.
  apply (fold_adjustVector_coincident _ _ bj); [|symmetry; exact Hpos].
  apply list_elem_of_lookup.
  destruct (Nat.lt_ge_cases j i) as [Hlt|Hge].
  - exists j. rewrite list_lookup_delete_lt by lia. exact Hj.
  - exists (Nat.pred j). rewrite list_lookup_delete_ge by lia.
    replace (S (Nat.pred j)) with j by lia. exact Hj.
Qed.

Lemma coincident_bodies_become_NaN_witness :
  exists b',
    bodies (updateSimulation
              (snd (addBody 1 0 0 (snd (addBody 0 0 0 (mk []))))))
    !! 0%nat = Some b' /\
    Body.momentum b' = MotionVector.mk nan nan /\
    Body.position b' = Position.mk nan nan.
Proof.
  apply (coincident_bodies_become_NaN
           (snd (addBody 1 0 0 (snd (addBody 0 0 0 (mk []))))) 0 1
           (Body.new 0 1 (Position.mk 0 0) (MotionVector.mk 0 0))
           (Body.new 1 1 (Position.mk 0 0) (MotionVector.mk 0 0)));
    [lia | reflexivity | reflexivity | reflexivity].
Defined.

(** ** NaN is absorbing *)

Lemma float_mul_nan_l (u : float) : (nan * u = nan)%float.
Proof.
  apply Prim2SF_inj. rewrite mul_spec, float_nan_spec. reflexivity.
Qed.

Lemma float_mul_nan_r (u : float) : (u * nan = nan)%float.
Proof.
  apply Prim2SF_inj. rewrite mul_spec, float_nan_spec.
  destruct (Prim2SF u); reflexivity.
Qed.

Lemma float_sub_nan_l (u : float) : (nan - u = nan)%float.
Proof.
  apply Prim2SF_inj. rewrite sub_spec, float_nan_spec. reflexivity.
Qed.

Lemma float_sub_nan_r (u : float) : (u - nan = nan)%float.
Proof.
  apply Prim2SF_inj. rewrite sub_spec, float_nan_spec.
  destruct (Prim2SF u); reflexivity.
Qed.

Lemma float_div_nan_r (u : float) : (u / nan = nan)%float.
Proof.
  apply Prim2SF_inj. rewrite div_spec, float_nan_spec.
  destruct (Prim2SF u); reflexivity.
Qed.

Lemma float_sqrt_nan : sqrt nan = nan.
Proof. reflexivity. Qed.

(** The pull at a distance that is NaN. *)
Lemma float_pull_at_distance_nan (p w dx dy d : float) :
  dx = nan \/ dy = nan ->
  let r := sqrt (dx * dx + dy * dy) in
  (w + p / (r * r) * 0.5 * d = nan)%float.
Proof.
  intros H r.
  assert (Hr : r = nan).
  { unfold r. destruct H as [-> | ->].
    - rewrite float_mul_nan_l, float_add_nan_l. reflexivity.
    - rewrite float_mul_nan_l, float_add_nan_r. reflexivity. }
  rewrite Hr, float_mul_nan_l, float_div_nan_r, !float_mul_nan_l.
  apply float_add_nan_r.
Qed.

Lemma adjustVector_nan_position (a b : Body.t) :
  Body.x a = nan \/ Body.y a = nan \/ Body.x b = nan \/ Body.y b = nan ->
  Body.momentum (Body.adjustVector a b) = MotionVector.mk nan nan.
Proof.
  destruct a as [ma [ax ay] [vx vy] ? ? ? ?],
           b as [mb [bx by_] ? ? ? ? ?].
  unfold Body.x, Body.y. cbn [Body.position Position.x Position.y].
  intros H.
  unfold Body.adjustVector, Body.gravCoeff, Position.distance,
    Position.difference, MotionVector.addCoords.
  body_simpl. cbn [Position.x Position.y MotionVector.x MotionVector.y].
  assert (Hd : (bx - ax = nan \/ by_ - ay = nan)%float).
  { destruct H as [-> | [-> | [-> | ->]]];
      rewrite ?float_sub_nan_l, ?float_sub_nan_r; auto. }
  f_equal; apply float_pull_at_distance_nan; exact Hd.
Qed.

Lemma fold_adjustVector_nan_position (others : list Body.t) : forall b o,
  o ∈ others ->
  Body.x b = nan \/ Body.y b = nan \/ Body.x o = nan \/ Body.y o = nan ->
  Body.momentum (fold_left Body.adjustVector others b)
  = MotionVector.mk nan nan.
Proof.
  induction others as [|o' others IH]; intros b o Ho Hnan.
  - apply elem_of_nil in Ho. destruct Ho.
  - simpl. apply elem_of_cons in Ho as [<- | Ho].
    + apply fold_adjustVector_nan_momentum, adjustVector_nan_position, Hnan.
    + apply (IH _ o Ho). exact Hnan.
Qed.

(** X14.  NaN is absorbing.  When a coordinate of the position of some
    body is NaN, one step turns the momentum and the position of every
    other body into (NaN, NaN), and those of that body too as soon as the
    collection holds another body. *)
Theorem nan_position_spreads :
  forall (c : BodyCollection.t) (i j : nat) (bi bj : Body.t),
    i <> j ->
    bodies c !! i = Some bi ->
    bodies c !! j = Some bj ->
    Body.x bj = nan \/ Body.y bj = nan ->
    (exists b',
       bodies (updateSimulation c) !! i = Some b' /\
       Body.momentum b' = MotionVector.mk nan nan /\
       Body.position b' = Position.mk nan nan) /\
    (exists b',
       bodies (updateSimulation c) !! j = Some b' /\
       Body.momentum b' = MotionVector.mk nan nan /\
       Body.position b' = Position.mk nan nan).
Proof.
  intros c i j bi bj Hij Hi Hj Hnan.
  assert (Hin : forall k l (bk bl : Body.t),
             k <> l -> bodies c !! l = Some bl ->
             bl ∈ delete k (bodies c)).
  { intros k l bk bl Hkl Hl. apply list_elem_of_lookup.
    destruct (Nat.lt_ge_cases l k) as [Hlt|Hge].
    - exists l. rewrite list_lookup_delete_lt by lia. exact Hl.
    - exists (Nat.pred l). rewrite list_lookup_delete_ge by lia.
      replace (S (Nat.pred l)) with l by lia. exact Hl. }
  split.
  - rewrite updateSimulation_lookup, Hi. cbn [fmap option_fmap option_map].
    eexists. split; [reflexivity|].
    apply adjustPosition_nan_momentum. unfold Phase.attracted.
    apply (fold_adjustVector_nan_position _ _ bj);
      [exact (Hin i j bi bj Hij Hj) | tauto].
  - rewrite updateSimulation_lookup, Hj. cbn [fmap option_fmap option_map].
    eexists. split; [reflexivity|].
    apply adjustPosition_nan_momentum. unfold Phase.attracted.
    apply (fold_adjustVector_nan_position _ _ bi);
      [apply (Hin j i bj bi); [lia | exact Hi] | tauto].
Qed.

Lemma nan_position_spreads_witness :
  (exists b',
     bodies (updateSimulation
               (mk [Sample.bodyA 0 2;
                    Body.mk 1 (Position.mk nan 0) (MotionVector.mk 0 0)
                      0 [] 0 2]))
     !! 0%nat = Some b' /\
     Body.momentum b' = MotionVector.mk nan nan /\
     Body.position b' = Position.mk nan nan) /\
  (exists b',
     bodies (updateSimulation
               (mk [Sample.bodyA 0 2;
                    Body.mk 1 (Position.mk nan 0) (MotionVector.mk 0 0)
                      0 [] 0 2]))
     !! 1%nat = Some b' /\
     Body.momentum b' = MotionVector.mk nan nan /\
     Body.position b' = Position.mk nan nan).
Proof.
  apply (nan_position_spreads
           (mk [Sample.bodyA 0 2;
                Body.mk 1 (Position.mk nan 0) (MotionVector.mk 0 0)
                  0 [] 0 2]) 0 1
           (Sample.bodyA 0 2)
           (Body.mk 1 (Position.mk nan 0) (MotionVector.mk 0 0) 0 [] 0 2));
    [lia | reflexivity | reflexivity | left; reflexivity].
Defined.

(** ** The displacement uses the new momentum *)

(** X15.  In a step every body is displaced by the momentum it has after
    the accumulation phase of this very step, not by the one it had
    before: the new position is the old position plus the new momentum,
    and the new momentum is the one left by the pulls of the others. *)
Theorem step_displaces_by_new_momentum :
  forall (c : BodyCollection.t) (i : nat) (b b' : Body.t),
    bodies c !! i = Some b ->
    bodies (updateSimulation c) !! i = Some b' ->
    Body.momentum b' = Body.momentum (Phase.attracted (bodies c) i b) /\
    Body.position b' = Position.addVector (Body.position b) (Body.momentum b').
Proof.
  intros c i b b' Hb Hb'.
  rewrite updateSimulation_lookup, Hb in Hb'.
  cbn [fmap option_fmap option_map] in Hb'. injection Hb' as <-.
  rewrite adjustPosition_frame. body_simpl.
  split; [reflexivity|].
  rewrite (attracted_frame Body.position); [reflexivity|]. reflexivity.
Qed.

Lemma step_displaces_by_new_momentum_witness :
  Body.momentum (Body.mk 1 (Position.mk 0.05 0) (MotionVector.mk 0.05 0)
                   0 [] 0 2)
  = Body.momentum
      (Phase.attracted [Sample.bodyA 0 2; Sample.bodyB 0 2] 0
         (Sample.bodyA 0 2)) /\
  Body.position (Body.mk 1 (Position.mk 0.05 0) (MotionVector.mk 0.05 0)
                   0 [] 0 2)
  = Position.addVector (Body.position (Sample.bodyA 0 2))
      (Body.momentum (Body.mk 1 (Position.mk 0.05 0)
                        (MotionVector.mk 0.05 0) 0 [] 0 2)).
Proof.
  apply (step_displaces_by_new_momentum
           (mk [Sample.bodyA 0 2; Sample.bodyB 0 2]) 0);
    vm_compute; reflexivity.
Defined.

(** ** A step restores the trail bound *)

(** X16.  When the capacities are whole numbers (of 0..100000), one
    step is enough to bring every trail back within its capacity:
    whatever the trails were before (also longer than a capacity that
    was just lowered), after a step no body holds more entries than its
    capacity. *)
Theorem step_restores_trail_bound :
  forall c : BodyCollection.t,
    Forall (fun b => (exists k, Spec.wholeCapacity b k)
                     /\ Spec.anArray (Body.trail b)) (bodies c) ->
    Forall Spec.wholeBounded (bodies (updateSimulation c)) /\
    Forall Spec.trailBounded (bodies (updateSimulation c)).
Proof.
  intros c Hc.
  assert (H : Forall Spec.wholeBounded (bodies (updateSimulation c))).
  { apply Forall_lookup_2. intros i b' Hb'.
    rewrite updateSimulation_lookup in Hb'.
    destruct (bodies c !! i) as [b|] eqn:Hb; [|discriminate].
    cbn [fmap option_fmap option_map] in Hb'. injection Hb' as <-.
    pose proof (Forall_lookup_1 _ _ _ _ Hc Hb) as Hcap. cbv beta in Hcap.
    destruct Hcap as [[k [Hk Hcap]] Harr].
    set (a := Phase.attracted (bodies c) i b).
    assert (Ha : Body.trailLength a = Body.trailLength b)
      by (apply (attracted_frame Body.trailLength); reflexivity).
    assert (Htr : Body.trail a = Body.trail b)
      by (apply (attracted_frame Body.trail); reflexivity).
    assert (Hwhole : Spec.wholeCapacity a k)
      by (split; [exact Hk | congruence]).
    exists k. split.
    - split; [exact Hk|]. rewrite adjustPosition_trailLength. congruence.
    - apply adjustPosition_trail_length; [exact Hwhole|].
      rewrite Htr. exact Harr. }
  split; [exact H|].
  eapply Forall_impl; [exact H|]. apply wholeBounded_trailBounded.
Qed.

Lemma step_restores_trail_bound_witness :
  Forall Spec.trailBounded
    (bodies (updateSimulation
               (mk [snd (Body.setTrailLength 1 Sample.twoEntries);
                    Sample.bodyB 0 2]))).
Proof.
  apply step_restores_trail_bound.
  repeat constructor;
    first [ exists 1; split; [lia | reflexivity]
          | exists 0; split; [lia | reflexivity]
          | unfold Spec.anArray; simpl; lia ].
Defined.

(** ** Numbers that are not whole *)

Lemma float_leb_nan_r (u : float) : (u <=? nan)%float = false.
Proof.
  rewrite leb_spec, float_nan_spec. unfold SFleb.
  destruct (Prim2SF u) as [[]|[]| |[] ? ?]; reflexivity.
Qed.

Lemma float_ltb_nan_l (u : float) : (nan <? u)%float = false.
Proof.
  rewrite ltb_spec, float_nan_spec. reflexivity.
Qed.

(** X17.  [setTrailLength(NaN)] succeeds, since NaN passes both
    comparisons of the guard.  A body whose capacity is NaN neither
    records nor trims: [adjustPosition] leaves its trail as it is, and so
    does any number of simulation steps. *)
Theorem nan_capacity_freezes_trail :
  (forall b : Body.t,
     Body.setTrailLength nan b = (Return tt, Body.set_trailLength nan b)) /\
  (forall b : Body.t,
     Body.trailLength b = nan ->
     Body.trail (Body.adjustPosition b) = Body.trail b) /\
  (forall (c : BodyCollection.t) (n : nat),
     Forall (fun b => Body.trailLength b = nan) (bodies c) ->
     map Body.trail (bodies (runSimulation n c)) = map Body.trail (bodies c)).
Proof.
  assert (Hstep : forall b : Body.t,
             Body.trailLength b = nan ->
             Body.trail (Body.adjustPosition b) = Body.trail b).
  { intros [m p v cap tr ci tt]. cbn [Body.trailLength]. intros ->.
    unfold Body.adjustPosition. body_simpl.
    rewrite float_leb_nan_r, andb_false_r. body_simpl.
    rewrite float_ltb_nan_l. reflexivity. }
  split; [reflexivity|]. split; [exact Hstep|].
  intros c n. revert c.
  induction n as [|n IH]; intros c Hc; [reflexivity|].
  assert (Hone : map Body.trail (bodies (updateSimulation c))
                 = map Body.trail (bodies c)).
  { apply list_eq. intros i.
    rewrite !list_lookup_fmap, updateSimulation_lookup.
    destruct (bodies c !! i) as [b|] eqn:Hb; [|reflexivity].
    cbn [fmap option_fmap option_map]. f_equal.
    pose proof (Forall_lookup_1 _ _ _ _ Hc Hb) as Hcap. cbv beta in Hcap.
    set (a := Phase.attracted (bodies c) i b).
    assert (Ha : Body.trailLength a = Body.trailLength b)
      by (apply (attracted_frame Body.trailLength); reflexivity).
    assert (Htr : Body.trail a = Body.trail b)
      by (apply (attracted_frame Body.trail); reflexivity).
    rewrite Hstep by congruence. exact Htr. }
  simpl. rewrite IH; [exact Hone|].
  apply updateSimulation_Forall; [| |exact Hc].
  - intros [] b' Hb. exact Hb.
  - intros b Hb. rewrite adjustPosition_trailLength. exact Hb.
Qed.

Lemma nan_capacity_freezes_trail_witness :
  Body.trail
    (Body.adjustPosition (snd (Body.setTrailLength nan Sample.twoEntries)))
  = Body.trail (snd (Body.setTrailLength nan Sample.twoEntries)).
Proof.
  apply (proj1 (proj2 nan_capacity_freezes_trail)). reflexivity.
Defined.

(** X18.  [setColor] accepts an index that is not a whole number: 1.5 and
    NaN pass both comparisons of the guard, the call returns them and
    stores them as the colour index, and the colour getter of the body
    then returns [undefined]. *)
Theorem setColor_accepts_what_is_no_index :
  forall b : Body.t,
    Body.setColor 1.5 b = (Return 1.5%float, Body.set_colorIndex 1.5 b) /\
    Body.color (snd (Body.setColor 1.5 b)) = None /\
    Body.setColor nan b = (Return nan, Body.set_colorIndex nan b) /\
    Body.color (snd (Body.setColor nan b)) = None.
Proof. intros b. repeat split. Qed.
